(** * Authorization and post-approval core of the studio app

    A shallow embedding of the authorization helpers of the two
    [AuthProvider] components, of the calendar's post filter and of the
    approve / request-changes handlers of [PostApproval], together with
    the properties the specification states about them. *)

From stdpp Require Import base decidable option list strings gmap.
From stdpp Require Import sorting.

Open Scope string_scope.

(** ** JavaScript values used by the components *)

(** [a === b] on two strings. *)
Definition str_eq (a b : string) : bool := bool_decide (a = b).
Infix "===" := str_eq (at level 70, no associativity).

(** [v === s] where [v] may be [null] / [undefined] and [s] is a string. *)
Definition opt_eq (v : option string) (s : string) : bool :=
  match v with
  | Some t => t === s
  | None => false
  end.
Infix "?===" := opt_eq (at level 70, no associativity).

(** [v ?? d]. *)
Definition nullish {A} (v : option A) (d : A) : A :=
  match v with
  | Some a => a
  | None => d
  end.
Infix "??" := nullish (at level 60, right associativity).

(** Truthiness of a string (the empty string is falsy) and of a nullable
    string. *)
Definition truthy_str (s : string) : bool := negb (s === "").
Definition truthy (v : option string) : bool :=
  match v with
  | Some s => truthy_str s
  | None => false
  end.

(** [Array.prototype.some] and [Array.prototype.find]. *)
Definition some {A} (f : A → bool) (l : list A) : bool := existsb f l.
Definition find {A} (f : A → bool) (l : list A) : option A := List.find f l.

(** ** Rows of the store *)

(** [public.profiles] *)
Module Profile.
Record t := mk {
  id : string;
  full_name : option string;
  role : option string;
}.
End Profile.

(** [public.workspace_members] *)
Module Membership.
Record t := mk {
  workspace_id : string;
  user_id : string;
  role : string;
  created_at : string;
}.
End Membership.

(** The identity provider's user and session. *)
Module AuthUser.
Record t := mk {
  id : string;
  email : option string;
}.
End AuthUser.

Module Session.
Record t := mk { user : option AuthUser.t }.
End Session.

(** The [{ data, error }] pair a store query resolves to. *)
Record response (A : Type) := Response {
  data : option A;
  error : option string;
}.
Arguments Response {A} _ _.
Arguments data {A} _.
Arguments error {A} _.

(** ** The provider that keeps the session and derives [globalRole]

    The helpers below read the same in the copy of this provider that
    loads through [loadForSession]. *)

Module AuthProviderSession.

(** The component's [useState] cells. *)
Record state := State {
  session : option Session.t;
  user : option AuthUser.t;
  profile : option Profile.t;
  memberships : list Membership.t;
  loading : bool;
}.

Definition initial : state :=
  {| session := None; user := None; profile := None; memberships := [];
     loading := true |}.

Definition setSession v (st : state) : state :=
  {| session := v; user := user st; profile := profile st;
     memberships := memberships st; loading := loading st |}.
Definition setUser v (st : state) : state :=
  {| session := session st; user := v; profile := profile st;
     memberships := memberships st; loading := loading st |}.
Definition setProfile v (st : state) : state :=
  {| session := session st; user := user st; profile := v;
     memberships := memberships st; loading := loading st |}.
Definition setMemberships v (st : state) : state :=
  {| session := session st; user := user st; profile := profile st;
     memberships := v; loading := loading st |}.
Definition setLoading v (st : state) : state :=
  {| session := session st; user := user st; profile := profile st;
     memberships := memberships st; loading := v |}.

(** [load]: the three awaited results ([getSession], the [profiles]
    query, the [workspace_members] query) are its inputs, and
    [isMounted] is the flag read after the first await. *)
Definition load (isMounted : bool) (sess : option Session.t)
    (pres : response Profile.t) (mres : response (list Membership.t))
    (st : state) : state :=
  let st := setLoading true st in
  if negb isMounted then st else
  let st := setSession sess st in
  let st := setUser (sess ≫= Session.user) st in
  match sess ≫= Session.user with
  | None =>
      let st := setProfile None st in
      let st := setMemberships [] st in
      setLoading false st
  | Some _ =>
      let st :=
        match error pres with
        | Some _ => setProfile None st
        | None => setProfile (data pres) st
        end in
      let st :=
        match error mres with
        | Some _ => setMemberships [] st
        | None => setMemberships (data mres ?? []) st
        end in
      setLoading false st
  end.

Definition globalRole (st : state) : string :=
  (profile st ≫= Profile.role) ?? "user".

Definition isAdmin (st : state) : bool := globalRole st === "admin".

Definition isClient (st : state) : bool :=
  some (λ m, (Membership.role m === "client_viewer")
             || (Membership.role m === "client_approver"))
       (memberships st).

Definition canApprove (st : state) : bool :=
  isAdmin st || some (λ m, Membership.role m === "client_approver") (memberships st).

Definition hasAccessToWorkspace (st : state) (workspaceId : string) : bool :=
  isAdmin st || some (λ m, Membership.workspace_id m === workspaceId) (memberships st).

Definition getClientWorkspaceId (st : state) : option string :=
  if isAdmin st then None
  else
    Membership.workspace_id <$>
      find (λ m, (Membership.role m === "client_viewer")
                 || (Membership.role m === "client_approver"))
           (memberships st).

(** The call [canApprove(workspaceId)]: the arrow function declares no
    parameter, so the argument is discarded. *)
Definition canApprove_at (st : state) (workspaceId : string) : bool :=
  canApprove st.

End AuthProviderSession.

(** ** The provider that derives a single [userRole] *)

Module AuthProvider.

Record state := State {
  user : option AuthUser.t;
  profile : option Profile.t;
  memberships : list Membership.t;
  loading : bool;
}.

Definition userRole (st : state) : string :=
  if (profile st ≫= Profile.role) ?=== "admin" then "admin"
  else if some (λ m, Membership.role m === "account_manager") (memberships st)
    then "account_manager"
  else if some (λ m, Membership.role m === "client_approver") (memberships st)
    then "client_approver"
  else if some (λ m, Membership.role m === "client_viewer") (memberships st)
    then "client_viewer"
  else "viewer".

Definition isAdmin (st : state) : bool := userRole st === "admin".
Definition isAccountManager (st : state) : bool :=
  (userRole st === "account_manager") || (userRole st === "admin").
Definition isClient (st : state) : bool :=
  (userRole st === "client_viewer") || (userRole st === "client_approver").
Definition canApprove (st : state) : bool :=
  (userRole st === "client_approver") || (userRole st === "admin").

(** The call [canApprove(workspaceId)]; the argument is discarded. *)
Definition canApprove_at (st : state) (workspaceId : string) : bool :=
  canApprove st.

End AuthProvider.

(** ** The role resolution contract in the specification's words

    Modelled from the spec: the workspace-parameterized capability check
    that guards the transitions on the store's side. No function of the
    client sources takes a workspace; this one follows section 4.1 word
    for word and is what the client's helpers are compared with. *)

Module RoleResolution.

Record account := Account {
  accountId : string;
  email : option string;
  globalRole : string;
  memberships : list Membership.t;
}.

Definition isAdmin (a : account) : bool := globalRole a === "admin".

(** True iff admin, or a membership in that workspace has role
    [client_approver]. *)
Definition canApprove (a : account) (workspaceId : string) : bool :=
  isAdmin a
  || some (λ m, (Membership.workspace_id m === workspaceId)
                && (Membership.role m === "client_approver"))
          (memberships a).

End RoleResolution.

(** ** More rows of the store *)

(** [public.social_accounts] *)
Module SocialAccount.
Record t := mk {
  id : string;
  workspace_id : string;
  platform : option string;
  handle : string;
}.
End SocialAccount.

(** [public.posts]. [review_reason] is where the server-side approval
    function keeps the free-text reason of a change request. *)
Module Post.
Record t := mk {
  id : string;
  workspace_id : string;
  social_account_id : option string;
  platform : option string;
  status : string;
  approval_status : option string;
  approved_by : option string;
  approved_at : option string;
  review_reason : option string;
}.
End Post.

(** [public.comments], the columns the client writes. *)
Module Comment.
Record t := mk {
  post_id : string;
  workspace_id : string;
  content : string;
  is_internal : bool;
}.
End Comment.

(** A JSON leaf of an audit entry's [details] object. *)
Inductive jsval :=
| JUndefined
| JNull
| JStr (s : string).

Definition of_nullable (v : option string) : jsval :=
  match v with
  | Some s => JStr s
  | None => JUndefined
  end.

(** [public.audit_logs], the columns the client writes. *)
Module AuditLog.
Record t := mk {
  workspace_id : string;
  entity_type : string;
  entity_id : string;
  action : string;
  details : list (string * jsval);
}.
End AuditLog.

(** ** The calendar page's selectors *)

Module Calendar.

(** [Array.prototype.filter]. *)
Definition array_filter {A} (f : A → bool) (l : list A) : list A :=
  List.filter f l.

(** [new Set(ids)] and [Set.prototype.has]. *)
Definition new_Set (ids : list string) : gset string := list_to_set ids.
Definition has (s : gset string) (x : string) : bool := bool_decide (x ∈ s).

Definition filteredAccounts (allAccounts : list SocialAccount.t)
    (selectedWorkspace selectedPlatform : string) : list SocialAccount.t :=
  let accs := allAccounts in
  let accs :=
    if negb (selectedWorkspace === "all")
    then array_filter (λ a, SocialAccount.workspace_id a === selectedWorkspace) accs
    else accs in
  let accs :=
    if negb (selectedPlatform === "all")
    then array_filter (λ a, SocialAccount.platform a ?=== selectedPlatform) accs
    else accs in
  accs.

Definition posts (allPosts : list Post.t) (filteredAccounts : list SocialAccount.t)
    (selectedWorkspace selectedPlatform selectedAccount : string) : list Post.t :=
  let accountIds := new_Set (map SocialAccount.id filteredAccounts) in
  let filtered :=
    array_filter
      (λ p, if truthy (Post.social_account_id p)
            then has accountIds (Post.social_account_id p ?? "")
            else true)
      allPosts in
  let filtered :=
    if negb (selectedWorkspace === "all")
    then array_filter (λ p, Post.workspace_id p === selectedWorkspace) filtered
    else filtered in
  let filtered :=
    if negb (selectedPlatform === "all")
    then array_filter (λ p, Post.platform p ?=== selectedPlatform) filtered
    else filtered in
  let filtered :=
    if negb (selectedAccount === "all")
    then array_filter (λ p, Post.social_account_id p ?=== selectedAccount) filtered
    else filtered in
  filtered.

(** The posts handed to the calendar view for given loaded rows and
    selector values. *)
Definition visible (allPosts : list Post.t) (allAccounts : list SocialAccount.t)
    (selectedWorkspace selectedPlatform selectedAccount : string) : list Post.t :=
  posts allPosts (filteredAccounts allAccounts selectedWorkspace selectedPlatform)
        selectedWorkspace selectedPlatform selectedAccount.

End Calendar.

(** ** The store and the remote calls of the approval component *)

Record db := Db {
  posts : list Post.t;
  comments : list Comment.t;
  audit_logs : list AuditLog.t;
}.

(** Modelled from the spec: the error taxonomy (section 7) of the
    store's answers. *)
Inductive failure :=
| Unauthorized
| InvalidState
| NotFound
| WriteError.

(** The calls the handlers await: [supabase.rpc('approve_post', ...)],
    [supabase.from('comments').insert([row])] and
    [supabase.from('audit_logs').insert([row])]. *)
Inductive remote_call :=
| RpcApprovePost (p_post_id p_status : string) (p_reason : option string)
| InsertComment (row : Comment.t)
| InsertAuditLog (row : AuditLog.t).

(** What the store knows of a request: the calling account and the time. *)
Record server := Server {
  caller : RoleResolution.account;
  now : string;
}.

Module Store.

(** Modelled from the spec: the row update of [approve_post]. An approval
    records the approver identity and the time, a change request the
    optional free-text reason. *)
Definition set_verdict (srv : server) (p_status : string)
    (p_reason : option string) (p : Post.t) : Post.t :=
  if p_status === "approved" then
    {| Post.id := Post.id p; Post.workspace_id := Post.workspace_id p;
       Post.social_account_id := Post.social_account_id p;
       Post.platform := Post.platform p; Post.status := Post.status p;
       Post.approval_status := Some p_status;
       Post.approved_by := Some (RoleResolution.accountId (caller srv));
       Post.approved_at := Some (now srv);
       Post.review_reason := Post.review_reason p |}
  else
    {| Post.id := Post.id p; Post.workspace_id := Post.workspace_id p;
       Post.social_account_id := Post.social_account_id p;
       Post.platform := Post.platform p; Post.status := Post.status p;
       Post.approval_status := Some p_status;
       Post.approved_by := Post.approved_by p;
       Post.approved_at := Post.approved_at p;
       Post.review_reason := p_reason |}.

(** Modelled from the spec: the server-side function [approve_post],
    which the client calls by name and whose body is not part of the
    client sources. It is the status update of the flow the
    specification describes (status update, then comment insert, then
    audit insert, each a separate remote call): guarded by
    [canApprove(post.workspaceId)] and by [post.status == sent_to_client],
    it fails with [Unauthorized] or [InvalidState], and otherwise sets
    the approval status to the verdict and records the approver
    identity and the time (approve) or the reason (request changes).
    The audit entry and the comment are written by the client, in
    calls of their own. *)
Definition approve_post (srv : server) (d : db)
    (p_post_id p_status : string) (p_reason : option string) : failure + db :=
  match find (λ p, Post.id p === p_post_id) (posts d) with
  | None => inl NotFound
  | Some p =>
      if negb (RoleResolution.canApprove (caller srv) (Post.workspace_id p))
      then inl Unauthorized
      else if negb (Post.status p === "sent_to_client")
      then inl InvalidState
      else inr {| posts :=
                    map (λ q, if Post.id q === p_post_id
                              then set_verdict srv p_status p_reason q
                              else q) (posts d);
                  comments := comments d;
                  audit_logs := audit_logs d |}
  end.

(** An insert appends the row to its table. *)
Definition insert_comment (d : db) (row : Comment.t) : db :=
  {| posts := posts d; comments := comments d ++ [row];
     audit_logs := audit_logs d |}.

Definition insert_audit_log (d : db) (row : AuditLog.t) : db :=
  {| posts := posts d; comments := comments d;
     audit_logs := audit_logs d ++ [row] |}.

(** The store's answer to one call. *)
Definition serve (srv : server) (d : db) (c : remote_call) : failure + db :=
  match c with
  | RpcApprovePost p_post_id p_status p_reason =>
      approve_post srv d p_post_id p_status p_reason
  | InsertComment row => inr (insert_comment d row)
  | InsertAuditLog row => inr (insert_audit_log d row)
  end.

End Store.

(** An async handler body: the calls it awaits, in program order. An
    awaited call that answers with an error throws, which ends the
    handler. *)
Inductive async :=
| Done
| Await (c : remote_call) (k : async).

Notation "'await' c ;; k" := (Await c k)
  (at level 10, c at level 99, k at level 200,
   format "'[v' 'await'  c  ;; '/' k ']'").

Inductive result :=
| Ok
| Threw (e : failure).

(** A run of one handler to completion without other writers.
    [faults c] is the transport or storage failure, if any, that hits
    call [c]. *)
Fixpoint run (srv : server) (faults : remote_call → option failure)
    (d : db) (p : async) : db * result :=
  match p with
  | Done => (d, Ok)
  | Await c k =>
      match faults c with
      | Some e => (d, Threw e)
      | None =>
          match Store.serve srv d c with
          | inl e => (d, Threw e)
          | inr d' => run srv faults d' k
          end
      end
  end.

Definition no_faults : remote_call → option failure := λ _, None.

(** ** The approval component *)

Module PostApproval.

(** What one render of the component closes over: the [post] prop, the
    [user] of [useAuth()], what [canApprove()] and [isClient()] answer
    during this render, and the dialog's text. The [onSuccess]
    callbacks and the toasts only refresh the page and are left out. *)
Record view := View {
  post : Post.t;
  user : option AuthUser.t;
  canApprove : bool;
  isClient : bool;
  rejectReason : string;
}.

(** [updateMutation.mutateAsync({ status, reason })]; [reason ?? null]
    sends a missing reason as [null], which is [None] here. *)
Definition updateMutation (v : view) (status : string)
    (reason : option string) : remote_call :=
  RpcApprovePost (Post.id (post v)) status reason.

(** [createComment.mutateAsync(data)] *)
Definition createComment (data : Comment.t) : remote_call :=
  InsertComment data.

Definition createAuditLog (v : view) (action : string)
    (details : list (string * jsval)) : remote_call :=
  InsertAuditLog
    {| AuditLog.workspace_id := Post.workspace_id (post v);
       AuditLog.entity_type := "post";
       AuditLog.entity_id := Post.id (post v);
       AuditLog.action := action;
       AuditLog.details := details |}.

(** [rejectReason || null] *)
Definition reason_or_null (v : view) : option string :=
  if truthy_str (rejectReason v) then Some (rejectReason v) else None.

Definition handleApprove (v : view) : async :=
  await updateMutation v "approved" None ;;
  await createAuditLog v "approved"
    [("action", JStr "Post approved");
     ("approved_by", of_nullable (user v ≫= AuthUser.email))] ;;
  Done.

Definition handleRequestChanges (v : view) : async :=
  await updateMutation v "changes_requested" (reason_or_null v) ;;
  let rest :=
    await createAuditLog v "changes_requested"
      [("action", JStr "Changes requested");
       ("reason", match reason_or_null v with
                  | Some r => JStr r
                  | None => JNull
                  end);
       ("requested_by", of_nullable (user v ≫= AuthUser.email))] ;;
    Done in
  if truthy_str (rejectReason v) then
    await createComment
      {| Comment.post_id := Post.id (post v);
         Comment.workspace_id := Post.workspace_id (post v);
         Comment.content := "Changes requested: " ++ rejectReason v;
         Comment.is_internal := false |} ;;
    rest
  else rest.

(** What the component returns. *)
Inductive rendering :=
| Nothing
| ApprovedBanner
| ChangesRequestedBanner
| Controls.

Definition render (v : view) : rendering :=
  if negb (Post.status (post v) === "sent_to_client") && negb (isClient v)
  then Nothing
  else if Post.approval_status (post v) ?=== "approved"
  then ApprovedBanner
  else if Post.approval_status (post v) ?=== "changes_requested"
  then ChangesRequestedBanner
  else if negb (canApprove v) || negb (Post.status (post v) === "sent_to_client")
  then Nothing
  else Controls.

End PostApproval.

(** ** Several sessions against one store *)

(** A handler in flight: the store's view of its session, and the calls
    it has yet to make. *)
Record task := Task {
  t_server : server;
  t_prog : async;
}.

Record system := System {
  store : db;
  tasks : list task;
}.

(** One step: a click on a rendered control starts a handler; the next
    call of some handler in flight is answered by the store, or fails. *)
Inductive step : system → system → Prop :=
| step_approve s srv v :
    PostApproval.render v = PostApproval.Controls →
    step s {| store := store s;
              tasks := tasks s ++ [Task srv (PostApproval.handleApprove v)] |}
| step_request_changes s srv v :
    PostApproval.render v = PostApproval.Controls →
    step s {| store := store s;
              tasks := tasks s ++ [Task srv (PostApproval.handleRequestChanges v)] |}
| step_answer s i srv c k d' :
    tasks s !! i = Some (Task srv (Await c k)) →
    Store.serve srv (store s) c = inr d' →
    step s {| store := d'; tasks := <[i := Task srv k]> (tasks s) |}
| step_throw s i srv c k :
    tasks s !! i = Some (Task srv (Await c k)) →
    step s {| store := store s; tasks := <[i := Task srv Done]> (tasks s) |}.

Definition reachable (s0 s : system) : Prop := rtc step s0 s.

(** A post of the store has a verdict. *)
Definition post_decided (d : db) (pid : string) : Prop :=
  ∃ p, p ∈ posts d ∧ Post.id p = pid
       ∧ (Post.approval_status p = Some "approved"
          ∨ Post.approval_status p = Some "changes_requested").

(** A post of the store is approved and no audit entry names it. *)
Definition approved_unaudited (d : db) (pid : string) : Prop :=
  (∃ p, p ∈ posts d ∧ Post.id p = pid
        ∧ Post.approval_status p = Some "approved")
  ∧ ∀ a, a ∈ audit_logs d → AuditLog.entity_id a ≠ pid.

(** * Vocabulary of the statements *)

Open Scope list_scope.

(** ** Calls and rows of a handler *)

(** The calls of a handler body, in program order. *)
Fixpoint calls (p : async) : list remote_call :=
  match p with
  | Done => []
  | Await c k => c :: calls k
  end.

(** The rows a call may append. *)
Definition audit_row_of (c : remote_call) : list AuditLog.t :=
  match c with
  | InsertAuditLog row => [row]
  | _ => []
  end.

Definition comment_row_of (c : remote_call) : list Comment.t :=
  match c with
  | InsertComment row => [row]
  | _ => []
  end.

(** The audit entries and comments that [d'] has beyond those of [d] all
    carry workspace [w] and name post [pid]. *)
Definition new_rows_in (w pid : string) (d d' : db) : Prop :=
  ∃ la lc,
    audit_logs d' = audit_logs d ++ la
    ∧ comments d' = comments d ++ lc
    ∧ Forall (λ a, AuditLog.workspace_id a = w ∧ AuditLog.entity_id a = pid) la
    ∧ Forall (λ c, Comment.workspace_id c = w ∧ Comment.post_id c = pid) lc.

(** The three calls of [handleRequestChanges]. *)
Definition mutation_call (v : PostApproval.view) : remote_call :=
  RpcApprovePost (Post.id (PostApproval.post v)) "changes_requested"
                 (if truthy_str (PostApproval.rejectReason v)
                  then Some (PostApproval.rejectReason v)
                  else None).

Definition comment_call (v : PostApproval.view) : remote_call :=
  InsertComment
    {| Comment.post_id := Post.id (PostApproval.post v);
       Comment.workspace_id := Post.workspace_id (PostApproval.post v);
       Comment.content :=
         ("Changes requested: " ++ PostApproval.rejectReason v)%string;
       Comment.is_internal := false |}.

Definition audit_call (v : PostApproval.view) : remote_call :=
  InsertAuditLog
    {| AuditLog.workspace_id := Post.workspace_id (PostApproval.post v);
       AuditLog.entity_type := "post";
       AuditLog.entity_id := Post.id (PostApproval.post v);
       AuditLog.action := "changes_requested";
       AuditLog.details :=
         [("action", JStr "Changes requested");
          ("reason", if truthy_str (PostApproval.rejectReason v)
                     then JStr (PostApproval.rejectReason v) else JNull);
          ("requested_by",
           of_nullable (PostApproval.user v ≫= AuthUser.email))] |}.

(** The two calls of [handleApprove]. *)
Definition approve_call (v : PostApproval.view) : remote_call :=
  RpcApprovePost (Post.id (PostApproval.post v)) "approved" None.

Definition approved_entry (v : PostApproval.view) : AuditLog.t :=
  {| AuditLog.workspace_id := Post.workspace_id (PostApproval.post v);
     AuditLog.entity_type := "post";
     AuditLog.entity_id := Post.id (PostApproval.post v);
     AuditLog.action := "approved";
     AuditLog.details :=
       [("action", JStr "Post approved");
        ("approved_by",
         of_nullable (PostApproval.user v ≫= AuthUser.email))] |}.

(** ** Handlers in flight *)

Definition valid_verdict (st : string) : Prop :=
  st = "approved" ∨ st = "changes_requested".

(** The rest of a handler whose status mutation was answered. [tail_for]
    says that its audit entries name post [pid]; [tail_ok] that they name
    posts that have a verdict in store [d]. *)
Fixpoint tail_for (pid : string) (p : async) : Prop :=
  match p with
  | Done => True
  | Await c k =>
      match c with
      | RpcApprovePost _ _ _ => False
      | InsertComment _ => True
      | InsertAuditLog a => AuditLog.entity_id a = pid
      end ∧ tail_for pid k
  end.

Fixpoint tail_ok (d : db) (p : async) : Prop :=
  match p with
  | Done => True
  | Await c k =>
      match c with
      | RpcApprovePost _ _ _ => False
      | InsertComment _ => True
      | InsertAuditLog a => post_decided d (AuditLog.entity_id a)
      end ∧ tail_ok d k
  end.

Definition task_ok (d : db) (p : async) : Prop :=
  match p with
  | Await (RpcApprovePost pid st _) k => valid_verdict st ∧ tail_for pid k
  | _ => tail_ok d p
  end.

(** Every audit entry names a post with a verdict, and so will the
    entries that the handlers in flight have yet to write. *)
Definition audited_after_verdict (s : system) : Prop :=
  (∀ a, a ∈ audit_logs (store s) → post_decided (store s) (AuditLog.entity_id a))
  ∧ Forall (λ t, task_ok (store s) (t_prog t)) (tasks s).

(** ** Scenarios of the specification *)

(** The account of the specification's scenarios: global role [user], a
    single membership, [client_approver] in workspace [w1]. *)
Definition approver_w1_memberships : list Membership.t :=
  [Membership.mk "w1" "u1" "client_approver" "2024-01-01"].

Definition approver_w1_session : AuthProviderSession.state :=
  {| AuthProviderSession.session :=
       Some (Session.mk (Some (AuthUser.mk "u1" (Some "approver@client.example"))));
     AuthProviderSession.user :=
       Some (AuthUser.mk "u1" (Some "approver@client.example"));
     AuthProviderSession.profile := Some (Profile.mk "u1" None (Some "user"));
     AuthProviderSession.memberships := approver_w1_memberships;
     AuthProviderSession.loading := false |}.

Definition approver_w1_account : RoleResolution.account :=
  {| RoleResolution.accountId := "u1";
     RoleResolution.email := Some "approver@client.example";
     RoleResolution.globalRole := "user";
     RoleResolution.memberships := approver_w1_memberships |}.

(** An account manager of workspace [w1] who is a client viewer of [w2]. *)
Definition manager_and_viewer : AuthProvider.state :=
  {| AuthProvider.user := Some (AuthUser.mk "u2" (Some "am@agency.example"));
     AuthProvider.profile := Some (Profile.mk "u2" None (Some "user"));
     AuthProvider.memberships :=
       [Membership.mk "w1" "u2" "account_manager" "2024-01-01";
        Membership.mk "w2" "u2" "client_viewer" "2024-01-02"];
     AuthProvider.loading := false |}.

(** Post [p1] of workspace [w1], sent to the client and awaiting review. *)
Definition post_p1 : Post.t :=
  {| Post.id := "p1"; Post.workspace_id := "w1";
     Post.social_account_id := None; Post.platform := Some "instagram";
     Post.status := "sent_to_client"; Post.approval_status := None;
     Post.approved_by := None; Post.approved_at := None;
     Post.review_reason := None |}.

Definition store_p1 : db :=
  {| posts := [post_p1]; comments := []; audit_logs := [] |}.

(** The approver of [w1], as the store sees the session. *)
Definition server_approver : server :=
  {| caller := approver_w1_account; now := "2024-03-01T10:00:00Z" |}.

(** The approver's view of [p1], with and without a reason typed. *)
Definition view_p1 (reason : string) : PostApproval.view :=
  {| PostApproval.post := post_p1;
     PostApproval.user := Some (AuthUser.mk "u1" (Some "approver@client.example"));
     PostApproval.canApprove := true;
     PostApproval.isClient := true;
     PostApproval.rejectReason := reason |}.

(** Only the insert into [comments] fails. *)
Definition comment_insert_fails : remote_call → option failure :=
  λ c, match c with
       | InsertComment _ => Some WriteError
       | _ => None
       end.

(** Post [p1] once approved, still with the client. *)
Definition post_p1_approved : Post.t :=
  Store.set_verdict server_approver "approved" None post_p1.

Definition store_p1_approved : db :=
  {| posts := [post_p1_approved]; comments := [];
     audit_logs := [approved_entry (view_p1 "")] |}.

(** The approver's session approves [p1]: the states it goes through. *)
Definition sessions_start : system :=
  {| store := store_p1; tasks := [] |}.

Definition approve_clicked : system :=
  {| store := store_p1;
     tasks := [Task server_approver (PostApproval.handleApprove (view_p1 ""))] |}.

Definition store_p1_mutated : db :=
  {| posts := [post_p1_approved]; comments := []; audit_logs := [] |}.

Definition after_mutation : system :=
  {| store := store_p1_mutated;
     tasks := [Task server_approver
                 (Await (InsertAuditLog (approved_entry (view_p1 ""))) Done)] |}.

Definition after_audit_failure : system :=
  {| store := store_p1_mutated; tasks := [Task server_approver Done] |}.

Definition after_audit : system :=
  {| store := store_p1_approved; tasks := [Task server_approver Done] |}.

(** * More of the components *)

(** ** The other two loaders *)

(** [load] of the provider that derives [userRole]. It awaits
    [getUser], the [profiles] query and the [workspace_members] query,
    reads the [ignore] flag after each await, and does not look at the
    queries' errors. *)
Module AuthProviderLoad.

Definition setUser v (st : AuthProvider.state) : AuthProvider.state :=
  {| AuthProvider.user := v; AuthProvider.profile := AuthProvider.profile st;
     AuthProvider.memberships := AuthProvider.memberships st;
     AuthProvider.loading := AuthProvider.loading st |}.
Definition setProfile v (st : AuthProvider.state) : AuthProvider.state :=
  {| AuthProvider.user := AuthProvider.user st; AuthProvider.profile := v;
     AuthProvider.memberships := AuthProvider.memberships st;
     AuthProvider.loading := AuthProvider.loading st |}.
Definition setMemberships v (st : AuthProvider.state) : AuthProvider.state :=
  {| AuthProvider.user := AuthProvider.user st;
     AuthProvider.profile := AuthProvider.profile st;
     AuthProvider.memberships := v;
     AuthProvider.loading := AuthProvider.loading st |}.
Definition setLoading v (st : AuthProvider.state) : AuthProvider.state :=
  {| AuthProvider.user := AuthProvider.user st;
     AuthProvider.profile := AuthProvider.profile st;
     AuthProvider.memberships := AuthProvider.memberships st;
     AuthProvider.loading := v |}.

(** [ignore1], [ignore2], [ignore3] are the values of [ignore] read after
    the first, second and third await. *)
Definition load (ignore1 ignore2 ignore3 : bool) (user : option AuthUser.t)
    (prof : response Profile.t) (mem : response (list Membership.t))
    (st : AuthProvider.state) : AuthProvider.state :=
  let st := setLoading true st in
  if ignore1 then st else
  let st := setUser user st in
  match user with
  | None =>
      let st := setProfile None st in
      let st := setMemberships [] st in
      setLoading false st
  | Some _ =>
      if ignore2 then st else
      let st := setProfile (data prof) st in
      if ignore3 then st else
      let st := setMemberships (data mem ?? []) st in
      setLoading false st
  end.

End AuthProviderLoad.

(** [loadForSession] of the copy of the session provider: it takes the
    session as its argument and reads no mounted flag. *)
Module AuthProviderLoadForSession.
Import AuthProviderSession.

Definition loadForSession (sess : option Session.t)
    (pres : response Profile.t) (mres : response (list Membership.t))
    (st : state) : state :=
  let st := setSession sess st in
  let st := setUser (sess ≫= Session.user) st in
  match sess ≫= Session.user with
  | None =>
      let st := setProfile None st in
      let st := setMemberships [] st in
      setLoading false st
  | Some _ =>
      let st := setLoading true st in
      let st :=
        match error pres with
        | Some _ => setProfile None st
        | None => setProfile (data pres) st
        end in
      let st :=
        match error mres with
        | Some _ => setMemberships [] st
        | None => setMemberships (data mres ?? []) st
        end in
      setLoading false st
  end.

End AuthProviderLoadForSession.

(** ** The application's gate *)

Module App.

(** What [AuthenticatedApp] returns: the spinner, the redirect to the
    login route, or the routes. *)
Inductive screen :=
| Spinner
| NavigateToLogin
| AppRoutes.

(** [loading] and [user] are the two values it takes from [useAuth()]. *)
Definition AuthenticatedApp (loading : bool) (user : option AuthUser.t) : screen :=
  if loading then Spinner
  else match user with
       | None => NavigateToLogin
       | Some _ => AppRoutes
       end.

End App.

(** ** The team page *)

Module Team.

Definition accountManagerUserIds (members : list Membership.t) : gset string :=
  Calendar.new_Set
    (map Membership.user_id
       (Calendar.array_filter
          (λ m, Membership.role m === "account_manager") members)).

Definition getAssignedAccounts (members : list Membership.t)
    (accounts : list SocialAccount.t) (userId : string) : list SocialAccount.t :=
  let managedWorkspaceIds :=
    Calendar.new_Set
      (map Membership.workspace_id
         (Calendar.array_filter
            (λ m, (Membership.user_id m === userId)
                  && (Membership.role m === "account_manager"))
            members)) in
  Calendar.array_filter
    (λ a, Calendar.has managedWorkspaceIds (SocialAccount.workspace_id a))
    accounts.

End Team.

(** ** The feed preview page *)

(** [public.posts], the columns the feed preview selects. *)
Module FeedPost.
Record t := mk {
  id : string;
  workspace_id : string;
  social_account_id : option string;
  platform : option string;
  status : string;
  approval_status : option string;
  order_index : option Z;
}.
End FeedPost.

Module FeedPreview.

(** [Array.prototype.sort(compare)]. The language requires the sort to
    be stable, so for a comparator that is a consistent order the result
    is determined: the elements in comparator order, equal ones in their
    input order. Insertion from the right computes it. *)
Fixpoint sort_insert {A} (compare : A → A → Z) (x : A) (l : list A) : list A :=
  match l with
  | [] => [x]
  | y :: l' =>
      if (compare x y <=? 0)%Z then x :: y :: l'
      else y :: sort_insert compare x l'
  end.

Fixpoint array_sort {A} (compare : A → A → Z) (l : list A) : list A :=
  match l with
  | [] => []
  | x :: l' => sort_insert compare x (array_sort compare l')
  end.

(** [p.order_index || 0] *)
Definition order_or_zero (p : FeedPost.t) : Z :=
  match FeedPost.order_index p with
  | Some n => if (n =? 0)%Z then 0%Z else n
  | None => 0%Z
  end.

Definition by_order_index (a b : FeedPost.t) : Z :=
  (order_or_zero a - order_or_zero b)%Z.

Definition filteredAccounts (allAccounts : list SocialAccount.t)
    (selectedWorkspace selectedPlatform : string) : list SocialAccount.t :=
  let accs := allAccounts in
  let accs :=
    if negb (selectedWorkspace === "all")
    then Calendar.array_filter
           (λ a, SocialAccount.workspace_id a === selectedWorkspace) accs
    else accs in
  let accs :=
    Calendar.array_filter
      (λ a, SocialAccount.platform a ?=== selectedPlatform) accs in
  accs.

Definition posts (allPosts : list FeedPost.t)
    (selectedWorkspace selectedAccount : string)
    (filteredAccounts : list SocialAccount.t) : list FeedPost.t :=
  let filtered :=
    Calendar.array_filter (λ p, negb (FeedPost.status p === "posted")) allPosts in
  let filtered :=
    if negb (selectedWorkspace === "all")
    then Calendar.array_filter
           (λ p, FeedPost.workspace_id p === selectedWorkspace) filtered
    else filtered in
  let filtered :=
    if negb (selectedAccount === "all")
    then Calendar.array_filter
           (λ p, FeedPost.social_account_id p ?=== selectedAccount) filtered
    else
      let accountIds :=
        Calendar.new_Set (map SocialAccount.id filteredAccounts) in
      Calendar.array_filter
        (λ p, if truthy (FeedPost.social_account_id p)
              then Calendar.has accountIds (FeedPost.social_account_id p ?? "")
              else false)
        filtered in
  array_sort by_order_index filtered.

End FeedPreview.

(** ** Further scenarios *)

(** An admin who also holds a client row. *)
Definition admin_with_viewer_row : AuthProviderSession.state :=
  {| AuthProviderSession.session := None;
     AuthProviderSession.user := Some (AuthUser.mk "u9" None);
     AuthProviderSession.profile := Some (Profile.mk "u9" None (Some "admin"));
     AuthProviderSession.memberships :=
       [Membership.mk "w1" "u9" "client_viewer" "2024-01-01"];
     AuthProviderSession.loading := false |}.

(** The awaited results of a load for the approver of [w1]. *)
Definition session_u1 : option Session.t :=
  Some (Session.mk (Some (AuthUser.mk "u1" (Some "approver@client.example")))).

Definition profile_answer_u1 : response Profile.t :=
  Response (Some (Profile.mk "u1" None (Some "user"))) None.

Definition memberships_answer_u1 : response (list Membership.t) :=
  Response (Some approver_w1_memberships) None.

(** The same membership query refused by the store. *)
Definition memberships_refused : response (list Membership.t) :=
  Response None (Some "permission denied for table workspace_members").

(** The provider that derives [userRole], holding the rows of
    [manager_and_viewer]'s counterpart with an approver row instead. *)
Definition manager_and_approver : AuthProvider.state :=
  {| AuthProvider.user := Some (AuthUser.mk "u4" (Some "lead@agency.example"));
     AuthProvider.profile := Some (Profile.mk "u4" None (Some "user"));
     AuthProvider.memberships :=
       [Membership.mk "w1" "u4" "client_approver" "2024-01-01";
        Membership.mk "w2" "u4" "account_manager" "2024-01-02"];
     AuthProvider.loading := false |}.

(** The session provider holding the same profile and rows. *)
Definition manager_and_approver_session : AuthProviderSession.state :=
  {| AuthProviderSession.session := None;
     AuthProviderSession.user := AuthProvider.user manager_and_approver;
     AuthProviderSession.profile := AuthProvider.profile manager_and_approver;
     AuthProviderSession.memberships := AuthProvider.memberships manager_and_approver;
     AuthProviderSession.loading := false |}.

(** ** The selectors as one test *)

(** Whether the calendar's [posts] keeps a row: the conjunction of its
    four filters. *)
Definition calendar_keeps (accs : list SocialAccount.t)
    (selectedWorkspace selectedPlatform selectedAccount : string)
    (p : Post.t) : bool :=
  (if truthy (Post.social_account_id p)
   then Calendar.has (Calendar.new_Set (map SocialAccount.id accs))
                     (Post.social_account_id p ?? "")
   else true)
  && (if negb (selectedWorkspace === "all")
      then Post.workspace_id p === selectedWorkspace else true)
  && (if negb (selectedPlatform === "all")
      then Post.platform p ?=== selectedPlatform else true)
  && (if negb (selectedAccount === "all")
      then Post.social_account_id p ?=== selectedAccount else true).

(** Calendar rows: a post of account [a1], a post with no account, and
    the account. *)
Definition post_of_a1 : Post.t :=
  {| Post.id := "p2"; Post.workspace_id := "w1";
     Post.social_account_id := Some "a1"; Post.platform := Some "instagram";
     Post.status := "scheduled"; Post.approval_status := None;
     Post.approved_by := None; Post.approved_at := None;
     Post.review_reason := None |}.

Definition account_a1 : SocialAccount.t :=
  {| SocialAccount.id := "a1"; SocialAccount.workspace_id := "w1";
     SocialAccount.platform := Some "instagram";
     SocialAccount.handle := "studio" |}.

(** Whether the feed preview's [posts] keeps a row: the conjunction of
    its filters. *)
Definition feed_keeps (selectedWorkspace selectedAccount : string)
    (accs : list SocialAccount.t) (p : FeedPost.t) : bool :=
  negb (FeedPost.status p === "posted")
  && (if negb (selectedWorkspace === "all")
      then FeedPost.workspace_id p === selectedWorkspace else true)
  && (if negb (selectedAccount === "all")
      then FeedPost.social_account_id p ?=== selectedAccount
      else if truthy (FeedPost.social_account_id p)
           then Calendar.has (Calendar.new_Set (map SocialAccount.id accs))
                             (FeedPost.social_account_id p ?? "")
           else false).

(** The order the feed preview sorts by. *)
Definition by_order (a b : FeedPost.t) : Prop :=
  (FeedPreview.order_or_zero a ≤ FeedPreview.order_or_zero b)%Z.

(** Feed rows: two posts of account [a1] with the same order index, an
    earlier one, a posted one and one with no account. *)
Definition feed_post (id : string) (account : option string) (status : string)
    (order : option Z) : FeedPost.t :=
  {| FeedPost.id := id; FeedPost.workspace_id := "w1";
     FeedPost.social_account_id := account;
     FeedPost.platform := Some "instagram"; FeedPost.status := status;
     FeedPost.approval_status := None; FeedPost.order_index := order |}.

Definition feed_rows : list FeedPost.t :=
  [feed_post "f1" (Some "a1") "scheduled" (Some 2%Z);
   feed_post "f2" (Some "a1") "draft" (Some 2%Z);
   feed_post "f3" (Some "a1") "scheduled" None;
   feed_post "f4" (Some "a1") "posted" (Some 1%Z);
   feed_post "f5" None "scheduled" (Some 0%Z)].

Definition feed_rows_by_order : list FeedPost.t :=
  [feed_post "f3" (Some "a1") "scheduled" None;
   feed_post "f4" (Some "a1") "posted" (Some 1%Z);
   feed_post "f1" (Some "a1") "scheduled" (Some 2%Z);
   feed_post "f2" (Some "a1") "draft" (Some 2%Z)].

(** Team rows: [u2] manages [w1] and views [w2]. *)
Definition team_members : list Membership.t :=
  [Membership.mk "w1" "u2" "account_manager" "2024-01-01";
   Membership.mk "w2" "u2" "client_viewer" "2024-01-02";
   Membership.mk "w1" "u1" "client_approver" "2024-01-03"].

(** Only the status mutation fails. *)
Definition mutation_fails : remote_call → option failure :=
  λ c, match c with
       | RpcApprovePost _ _ _ => Some WriteError
       | _ => None
       end.

(** ** The brand guidelines page *)

(** [public.brand_guidelines]. The [data] column keeps the form as a
    JavaScript (gmap string jsval) with string keys. *)
Module BrandGuideline.
Record t := mk {
  id : string;
  workspace_id : string;
  data : gmap string jsval;
  updated_by : string;
}.
End BrandGuideline.

Module BrandGuidelines.

(** Truthiness of a value read from an object. *)
Definition truthy_val (v : option jsval) : bool :=
  match v with
  | Some (JStr s) => truthy_str s
  | _ => false
  end.

(** [.maybeSingle()]: no row answers [null], one row answers it, more
    than one is an error. *)
Definition maybeSingle (rows : list BrandGuideline.t)
    : response BrandGuideline.t :=
  match rows with
  | [] => Response None None
  | [r] => Response (Some r) None
  | _ => Response None (Some "multiple rows returned")
  end.

(** [{ id: data.id, ...data.data }]: the keys of [data.data] come after
    [id] and win over it. *)
Definition form_shape (r : BrandGuideline.t) : gmap string jsval :=
  BrandGuideline.data r ∪ {[ "id" := JStr (BrandGuideline.id r) ]}.

(** The [queryFn] of the guidelines query, against a table. It throws
    the store's error and otherwise answers the form shape of the row,
    or [null]. *)
Definition queryFn (workspaceId : string) (table : list BrandGuideline.t)
    : string + option (gmap string jsval) :=
  let res :=
    maybeSingle
      (Calendar.array_filter
         (λ r, BrandGuideline.workspace_id r === workspaceId) table) in
  match error res with
  | Some e => inl e
  | None => inr (form_shape <$> data res)
  end.

Inductive save_error :=
| MissingWorkspaceId
| NotAuthenticated
| StoreError (e : string).

(** [.eq("id", v)] on a row. *)
Definition eq_id (v : option jsval) (r : BrandGuideline.t) : bool :=
  match v with
  | Some (JStr s) => BrandGuideline.id r === s
  | _ => false
  end.

(** [.update(payload).eq("id", v)] *)
Definition update_eq_id (v : option jsval) (workspaceId : string)
    (formData : gmap string jsval) (userId : string)
    (table : list BrandGuideline.t) : list BrandGuideline.t :=
  map (λ r, if eq_id v r
            then {| BrandGuideline.id := BrandGuideline.id r;
                    BrandGuideline.workspace_id := workspaceId;
                    BrandGuideline.data := formData;
                    BrandGuideline.updated_by := userId |}
            else r) table.

(** The [mutationFn] of [saveMutation]. [workspaceId] is the URL
    parameter, [guidelines] what the query last answered, [new_id] the
    id the store gives an inserted row and [fault] the error, if any,
    the store answers the write with. *)
Definition saveMutation (workspaceId : option string)
    (user : option AuthUser.t) (guidelines : option (gmap string jsval))
    (new_id : string) (fault : option string)
    (formData : gmap string jsval) (table : list BrandGuideline.t)
    : save_error + list BrandGuideline.t :=
  if negb (truthy workspaceId) then inl MissingWorkspaceId
  else if negb (truthy (AuthUser.id <$> user)) then inl NotAuthenticated
  else
    let w := workspaceId ?? "" in
    let uid := (AuthUser.id <$> user) ?? "" in
    if truthy_val (guidelines ≫= (.!! "id")) then
      match fault with
      | Some e => inl (StoreError e)
      | None =>
          inr (update_eq_id (guidelines ≫= (.!! "id")) w formData uid table)
      end
    else
      match fault with
      | Some e => inl (StoreError e)
      | None =>
          inr (table ++ [{| BrandGuideline.id := new_id;
                            BrandGuideline.workspace_id := w;
                            BrandGuideline.data := formData;
                            BrandGuideline.updated_by := uid |}])
      end.

End BrandGuidelines.

(** Brand guideline rows and a form. *)
Definition brand_form : gmap string jsval :=
  {[ "tone" := JStr "warm"; "tagline" := JStr "Made by hand" ]}.

Definition brand_row_w2 : BrandGuideline.t :=
  {| BrandGuideline.id := "g2"; BrandGuideline.workspace_id := "w2";
     BrandGuideline.data := {[ "tone" := JStr "bold" ]};
     BrandGuideline.updated_by := "u2" |}.

Definition brand_row_w1 : BrandGuideline.t :=
  {| BrandGuideline.id := "g1"; BrandGuideline.workspace_id := "w1";
     BrandGuideline.data := {[ "tone" := JStr "plain" ]};
     BrandGuideline.updated_by := "u2" |}.

Definition user_u1 : option AuthUser.t :=
  Some (AuthUser.mk "u1" (Some "approver@client.example")).

(** * Properties *)

(** ** JavaScript helpers *)

Lemma str_eq_true (a b : string) : (a === b) = true ↔ a = b.
Proof. unfold str_eq. apply bool_decide_eq_true. Qed.

Lemma str_eq_false (a b : string) : (a === b) = false ↔ a ≠ b.
Proof. unfold str_eq. apply bool_decide_eq_false. Qed.

Lemma opt_eq_true (v : option string) (s : string) : (v ?=== s) = true ↔ v = Some s.
Proof.
  destruct v as [t|]; simpl.
  - rewrite str_eq_true. split; congruence.
  - split; discriminate.
Qed.

Lemma some_true {A} (f : A → bool) (l : list A) :
  some f l = true ↔ ∃ x, x ∈ l ∧ f x = true.
Proof.
  unfold some. rewrite existsb_exists.
  split; intros (x & Hx & Hf); exists x; split; auto; by apply list_elem_of_In.
Qed.

Lemma some_false {A} (f : A → bool) (l : list A) :
  some f l = false ↔ ∀ x, x ∈ l → f x = false.
Proof.
  rewrite <- not_true_iff_false, some_true. split.
  - intros Hn x Hx. apply not_true_iff_false. intros Hf. apply Hn. eauto.
  - intros Hall (x & Hx & Hf). specialize (Hall x Hx). congruence.
Qed.

Lemma some_role (r : string) (ms : list Membership.t) :
  some (λ m, Membership.role m === r) ms = true
  ↔ ∃ m, m ∈ ms ∧ Membership.role m = r.
Proof.
  rewrite some_true. split; intros (m & Hm & Hr); exists m; split; auto;
    by apply str_eq_true.
Qed.

Lemma some_client (ms : list Membership.t) :
  some (λ m, (Membership.role m === "client_viewer")
             || (Membership.role m === "client_approver")) ms = true
  ↔ ∃ m, m ∈ ms ∧ (Membership.role m = "client_viewer"
                    ∨ Membership.role m = "client_approver").
Proof.
  rewrite some_true. split; intros (m & Hm & Hr); exists m; split; auto.
  - apply orb_true_iff in Hr. by rewrite !str_eq_true in Hr.
  - apply orb_true_iff. by rewrite !str_eq_true.
Qed.

(** ** Role resolution *)

Section SessionProvider.
Import AuthProviderSession.

Lemma isAdmin_true st : isAdmin st = true ↔ globalRole st = "admin".
Proof. apply str_eq_true. Qed.

Lemma canApprove_true st :
  canApprove st = true
  ↔ globalRole st = "admin"
    ∨ ∃ m, m ∈ memberships st ∧ Membership.role m = "client_approver".
Proof.
  unfold canApprove. by rewrite orb_true_iff, isAdmin_true, some_role.
Qed.

Lemma hasAccessToWorkspace_true st w :
  hasAccessToWorkspace st w = true
  ↔ globalRole st = "admin"
    ∨ ∃ m, m ∈ memberships st ∧ Membership.workspace_id m = w.
Proof.
  unfold hasAccessToWorkspace. rewrite orb_true_iff, isAdmin_true, some_true.
  split; (intros [Ha | (m & Hm & Hw)]; [by left | right; exists m; split; auto]);
    by apply str_eq_true.
Qed.

Lemma globalRole_no_profile st : profile st = None → globalRole st = "user".
Proof. unfold globalRole. by intros ->. Qed.

Lemma load_profile isMounted sess pres mres st :
  isMounted = true →
  profile (load isMounted sess pres mres st)
  = match sess ≫= Session.user, error pres with
    | Some _, None => data pres
    | _, _ => None
    end.
Proof.
  intros ->. unfold load. simpl.
  destruct (sess ≫= Session.user); [| reflexivity].
  destruct (error pres), (error mres); reflexivity.
Qed.

End SessionProvider.

Section UserRoleProvider.
Import AuthProvider.

(** The four outcomes of the precedence chain that computes [userRole]. *)
Lemma userRole_cases st :
  let admin := (profile st ≫= Profile.role) ?=== "admin" in
  let has r := some (λ m, Membership.role m === r) (memberships st) in
  (admin = true ∧ userRole st = "admin")
  ∨ (admin = false ∧ has "account_manager" = true
     ∧ userRole st = "account_manager")
  ∨ (admin = false ∧ has "account_manager" = false
     ∧ has "client_approver" = true ∧ userRole st = "client_approver")
  ∨ (admin = false ∧ has "account_manager" = false
     ∧ has "client_approver" = false ∧ has "client_viewer" = true
     ∧ userRole st = "client_viewer")
  ∨ (admin = false ∧ has "account_manager" = false
     ∧ has "client_approver" = false ∧ has "client_viewer" = false
     ∧ userRole st = "viewer").
Proof.
  unfold userRole. simpl.
  destruct (_ ?=== _); [by left | right].
  destruct (some _ (memberships st)) eqn:Ham; [by left | right].
  destruct (some (λ m, Membership.role m === "client_approver") _) eqn:Hap;
    [by left | right].
  destruct (some (λ m, Membership.role m === "client_viewer") _) eqn:Hcv;
    [by left | by right].
Qed.

Lemma canApprove_true' st :
  canApprove st = true
  ↔ (profile st ≫= Profile.role) = Some "admin"
    ∨ ((∀ m, m ∈ memberships st → Membership.role m ≠ "account_manager")
       ∧ ∃ m, m ∈ memberships st ∧ Membership.role m = "client_approver").
Proof.
  unfold canApprove.
  destruct (userRole_cases st) as
    [(Ha & ->) | [(Ha & Hm & ->) | [(Ha & Hm & Hp & ->)
    | [(Ha & Hm & Hp & Hv & ->) | (Ha & Hm & Hp & Hv & ->)]]]]; simpl.
  - apply opt_eq_true in Ha. split; auto.
  - split; [done |]. intros [He | (Hno & _)].
    + apply opt_eq_true in He. congruence.
    + apply some_role in Hm as (m & Hin & Hr). by destruct (Hno m Hin).
  - split; [intros _; right | done]. split.
    + intros m Hin Hr. rewrite some_false in Hm. specialize (Hm m Hin).
      apply str_eq_false in Hm. done.
    + by apply some_role.
  - split; [done |]. intros [He | (_ & Hex)].
    + apply opt_eq_true in He. congruence.
    + apply some_role in Hex. congruence.
  - split; [done |]. intros [He | (_ & Hex)].
    + apply opt_eq_true in He. congruence.
    + apply some_role in Hex. congruence.
Qed.

Lemma isClient_true' st :
  isClient st = true
  ↔ (profile st ≫= Profile.role) ≠ Some "admin"
    ∧ (∀ m, m ∈ memberships st → Membership.role m ≠ "account_manager")
    ∧ ∃ m, m ∈ memberships st
           ∧ (Membership.role m = "client_viewer"
              ∨ Membership.role m = "client_approver").
Proof.
  assert (Hnoam : some (λ m, Membership.role m === "account_manager")
                    (memberships st) = false
                  → ∀ m, m ∈ memberships st
                         → Membership.role m ≠ "account_manager").
  { intros Hm m Hin. rewrite some_false in Hm. by apply str_eq_false, Hm. }
  assert (Hnoad : ((profile st ≫= Profile.role) ?=== "admin") = false
                  → (profile st ≫= Profile.role) ≠ Some "admin").
  { intros Ha He. apply opt_eq_true in He. congruence. }
  unfold isClient.
  destruct (userRole_cases st) as
    [(Ha & ->) | [(Ha & Hm & ->) | [(Ha & Hm & Hp & ->)
    | [(Ha & Hm & Hp & Hv & ->) | (Ha & Hm & Hp & Hv & ->)]]]]; simpl.
  - apply opt_eq_true in Ha. split; [done | by intros (Hn & _)].
  - split; [done |]. intros (_ & Hno & _).
    apply some_role in Hm as (m & Hin & Hr). by destruct (Hno m Hin).
  - split; [intros _ | done]. split; [auto | split; [auto |]].
    apply some_role in Hp as (m & Hin & Hr). eauto.
  - split; [intros _ | done]. split; [auto | split; [auto |]].
    apply some_role in Hv as (m & Hin & Hr). eauto.
  - split; [done |]. intros (_ & _ & m & Hin & [Hr | Hr]).
    + assert (Hs : some (λ m, Membership.role m === "client_viewer")
                     (memberships st) = true) by (apply some_role; eauto).
      congruence.
    + assert (Hs : some (λ m, Membership.role m === "client_approver")
                     (memberships st) = true) by (apply some_role; eauto).
      congruence.
Qed.

End UserRoleProvider.

(** C1, as stated, fails: for the account whose only [client_approver]
    membership is in [w1], [canApprove("w2")] is true although the account
    is not admin and holds no membership in [w2]; the workspace-scoped
    check of the specification answers false there. *)
Lemma canApprove_not_workspace_scoped :
  AuthProviderSession.canApprove_at approver_w1_session "w1" = true
  ∧ AuthProviderSession.canApprove_at approver_w1_session "w2" = true
  ∧ RoleResolution.canApprove approver_w1_account "w2" = false
  ∧ ¬ (AuthProviderSession.globalRole approver_w1_session = "admin"
       ∨ ∃ m, m ∈ AuthProviderSession.memberships approver_w1_session
              ∧ Membership.workspace_id m = "w2"
              ∧ Membership.role m = "client_approver").
Proof.
  repeat split; try reflexivity.
  intros [Hadmin | (m & Hm & Hw & _)].
  - discriminate Hadmin.
  - apply list_elem_of_singleton in Hm. subst m. discriminate Hw.
Qed.

(** C1, amended: [canApprove] discards its argument. With the provider
    that derives [globalRole] it is true iff the global role is admin or
    some membership, in any workspace, has role [client_approver]; with
    the provider that derives [userRole] it is true iff the profile role
    is admin, or no membership is [account_manager] and some membership,
    in any workspace, is [client_approver]. So the answer is the same for
    every two workspaces. *)
Theorem canApprove_any_workspace (st : AuthProviderSession.state)
    (st' : AuthProvider.state) (w w2 : string) :
  (AuthProviderSession.canApprove_at st w = true
   ↔ AuthProviderSession.globalRole st = "admin"
     ∨ ∃ m, m ∈ AuthProviderSession.memberships st
            ∧ Membership.role m = "client_approver")
  ∧ (AuthProvider.canApprove_at st' w = true
     ↔ (AuthProvider.profile st' ≫= Profile.role) = Some "admin"
       ∨ ((∀ m, m ∈ AuthProvider.memberships st'
                → Membership.role m ≠ "account_manager")
          ∧ ∃ m, m ∈ AuthProvider.memberships st'
                 ∧ Membership.role m = "client_approver"))
  ∧ AuthProviderSession.canApprove_at st w2 = AuthProviderSession.canApprove_at st w
  ∧ AuthProvider.canApprove_at st' w2 = AuthProvider.canApprove_at st' w.
Proof.
  split; [apply canApprove_true |].
  split; [apply canApprove_true' |].
  split; reflexivity.
Qed.

(** C7: [hasAccessToWorkspace(w)] is true iff the global role is admin or
    some membership references [w]; an account with global role [user]
    and no membership gets false for every workspace. *)
Theorem hasAccessToWorkspace_iff (st : AuthProviderSession.state) (w : string) :
  (AuthProviderSession.hasAccessToWorkspace st w = true
   ↔ AuthProviderSession.globalRole st = "admin"
     ∨ ∃ m, m ∈ AuthProviderSession.memberships st
            ∧ Membership.workspace_id m = w)
  ∧ (AuthProviderSession.globalRole st = "user"
     → AuthProviderSession.memberships st = []
     → AuthProviderSession.hasAccessToWorkspace st w = false).
Proof.
  split; [apply hasAccessToWorkspace_true |].
  intros Hrole Hnone. apply not_true_iff_false.
  rewrite hasAccessToWorkspace_true, Hrole, Hnone.
  intros [Hadmin | (m & Hm & _)]; [discriminate | by apply elem_of_nil in Hm].
Qed.

Lemma hasAccessToWorkspace_iff_witness :
  let st := {| AuthProviderSession.session := None;
               AuthProviderSession.user := None;
               AuthProviderSession.profile := Some (Profile.mk "u0" None (Some "user"));
               AuthProviderSession.memberships := [];
               AuthProviderSession.loading := false |} in
  AuthProviderSession.globalRole st = "user"
  ∧ AuthProviderSession.memberships st = []
  ∧ AuthProviderSession.hasAccessToWorkspace st "w1" = false.
Proof.
  intros st. split; [reflexivity |]. split; [reflexivity |].
  apply (hasAccessToWorkspace_iff st "w1"); reflexivity.
Defined.

(** C8, as stated, fails with the provider that derives [userRole]: an
    account that is [account_manager] in one workspace and
    [client_viewer] in another gets [isClient() = false]. *)
Lemma isClient_hidden_by_account_manager :
  (∃ m, m ∈ AuthProvider.memberships manager_and_viewer
        ∧ (Membership.role m = "client_viewer"
           ∨ Membership.role m = "client_approver"))
  ∧ AuthProvider.isClient manager_and_viewer = false.
Proof.
  split; [| reflexivity].
  exists (Membership.mk "w2" "u2" "client_viewer" "2024-01-02").
  split; [| by left]. apply list_elem_of_In. right. by left.
Qed.

(** C8, amended: with the provider that derives [globalRole],
    [isClient()] is true iff some membership has role [client_viewer] or
    [client_approver], whatever the other memberships; with the provider
    that derives [userRole] it is true iff, besides, the profile role is
    not admin and no membership has role [account_manager]. *)
Theorem isClient_iff (st : AuthProviderSession.state) (st' : AuthProvider.state) :
  (AuthProviderSession.isClient st = true
   ↔ ∃ m, m ∈ AuthProviderSession.memberships st
          ∧ (Membership.role m = "client_viewer"
             ∨ Membership.role m = "client_approver"))
  ∧ (AuthProvider.isClient st' = true
     ↔ (AuthProvider.profile st' ≫= Profile.role) ≠ Some "admin"
       ∧ (∀ m, m ∈ AuthProvider.memberships st'
               → Membership.role m ≠ "account_manager")
       ∧ ∃ m, m ∈ AuthProvider.memberships st'
              ∧ (Membership.role m = "client_viewer"
                 ∨ Membership.role m = "client_approver")).
Proof.
  split; [apply some_client | apply isClient_true'].
Qed.

(** C10: when the profile query answers with an error, or with no row,
    [load] stores [profile = null]; [globalRole] is then ["user"],
    [isAdmin()] is false, and [canApprove] and [hasAccessToWorkspace]
    are decided by the memberships alone: without an approver membership
    the first is false, without a membership in the workspace the second
    is false. *)
Theorem load_without_profile_is_not_admin (sess : option Session.t)
    (pres : response Profile.t) (mres : response (list Membership.t))
    (st0 : AuthProviderSession.state) (w : string) :
  is_Some (error pres) ∨ data pres = None →
  let st := AuthProviderSession.load true sess pres mres st0 in
  AuthProviderSession.profile st = None
  ∧ AuthProviderSession.globalRole st = "user"
  ∧ AuthProviderSession.isAdmin st = false
  ∧ ((∀ m, m ∈ AuthProviderSession.memberships st
           → Membership.role m ≠ "client_approver")
     → AuthProviderSession.canApprove_at st w = false)
  ∧ ((∀ m, m ∈ AuthProviderSession.memberships st
           → Membership.workspace_id m ≠ w)
     → AuthProviderSession.hasAccessToWorkspace st w = false).
Proof.
  intros Hmiss st.
  assert (Hp : AuthProviderSession.profile st = None).
  { subst st. rewrite load_profile by reflexivity.
    destruct (sess ≫= Session.user); [| reflexivity].
    destruct Hmiss as [[e ->] | Hd]; [reflexivity |].
    by destruct (error pres). }
  assert (Hg : AuthProviderSession.globalRole st = "user")
    by by apply globalRole_no_profile.
  split; [done |]. split; [done |].
  split; [unfold AuthProviderSession.isAdmin; by rewrite Hg |].
  split.
  - intros Hno. apply not_true_iff_false.
    unfold AuthProviderSession.canApprove_at. rewrite canApprove_true, Hg.
    intros [Hadmin | (m & Hm & Hr)]; [discriminate | by apply (Hno m)].
  - intros Hno. apply not_true_iff_false.
    rewrite hasAccessToWorkspace_true, Hg.
    intros [Hadmin | (m & Hm & Hr)]; [discriminate | by apply (Hno m)].
Qed.

Lemma load_without_profile_is_not_admin_witness :
  let sess := Some (Session.mk (Some (AuthUser.mk "u3" (Some "new@client.example")))) in
  let pres := Response None (Some "PGRST116: no rows returned") in
  let mres := Response (Some [Membership.mk "w1" "u3" "client_viewer" "2024-02-01"]) None in
  (is_Some (error pres) ∨ data pres = None)
  ∧ let st := AuthProviderSession.load true sess pres mres AuthProviderSession.initial in
    AuthProviderSession.profile st = None
    ∧ AuthProviderSession.globalRole st = "user"
    ∧ AuthProviderSession.isAdmin st = false
    ∧ ((∀ m, m ∈ AuthProviderSession.memberships st
             → Membership.role m ≠ "client_approver")
       → AuthProviderSession.canApprove_at st "w2" = false)
    ∧ ((∀ m, m ∈ AuthProviderSession.memberships st
             → Membership.workspace_id m ≠ "w2")
       → AuthProviderSession.hasAccessToWorkspace st "w2" = false).
Proof.
  intros sess pres mres.
  assert (Hmiss : is_Some (error pres) ∨ data pres = None)
    by (left; by eexists).
  split; [exact Hmiss |].
  exact (load_without_profile_is_not_admin sess pres mres
           AuthProviderSession.initial "w2" Hmiss).
Defined.

(** ** The calendar's selectors *)

Section CalendarFilter.
Import Calendar.

Lemma array_filter_sublist {A} (f : A → bool) (l : list A) :
  array_filter f l `sublist_of` l.
Proof.
  induction l as [| x l IH]; simpl.
  - constructor.
  - destruct (f x); [by apply sublist_skip | by apply sublist_cons].
Qed.

Lemma array_filter_mono {A} (f g : A → bool) (l : list A) :
  (∀ x, f x = true → g x = true) →
  array_filter f l `sublist_of` array_filter g l.
Proof.
  intros Hfg. induction l as [| x l IH]; simpl; [constructor |].
  destruct (f x) eqn:Hf.
  - rewrite (Hfg x Hf). by apply sublist_skip.
  - destruct (g x); [by apply sublist_cons | done].
Qed.

(** A selector's conditional filter keeps a subsequence. *)
Lemma selector_sublist {A} (b : bool) (f : A → bool) (l : list A) :
  (if b then array_filter f l else l) `sublist_of` l.
Proof. destruct b; [apply array_filter_sublist | done]. Qed.

Lemma filteredAccounts_sublist allAccounts w p :
  filteredAccounts allAccounts w p `sublist_of` allAccounts.
Proof.
  unfold filteredAccounts.
  etrans; [apply selector_sublist |]. apply selector_sublist.
Qed.

Lemma posts_sublist_by_account allPosts accs w p a :
  posts allPosts accs w p a
  `sublist_of`
  array_filter
    (λ q, if truthy (Post.social_account_id q)
          then has (new_Set (map SocialAccount.id accs))
                   (Post.social_account_id q ?? "")
          else true)
    allPosts.
Proof.
  unfold posts.
  etrans; [apply selector_sublist |].
  etrans; [apply selector_sublist |]. apply selector_sublist.
Qed.

Lemma posts_sublist allPosts accs w p a :
  posts allPosts accs w p a `sublist_of` allPosts.
Proof.
  etrans; [apply posts_sublist_by_account | apply array_filter_sublist].
Qed.

Lemma has_mono (l1 l2 : list string) (x : string) :
  l1 ⊆ l2 → has (new_Set l1) x = true → has (new_Set l2) x = true.
Proof.
  unfold has, new_Set. rewrite !bool_decide_eq_true, !elem_of_list_to_set.
  auto.
Qed.

Lemma visible_all allPosts allAccounts :
  visible allPosts allAccounts "all" "all" "all"
  = array_filter
      (λ q, if truthy (Post.social_account_id q)
            then has (new_Set (map SocialAccount.id allAccounts))
                     (Post.social_account_id q ?? "")
            else true)
      allPosts.
Proof. reflexivity. Qed.

End CalendarFilter.

(** C9: for every collection of posts and accounts and every value of
    the workspace, platform and account selectors, the posts shown are a
    subsequence of the loaded posts (same relative order, no row that was
    not loaded), and a subsequence of what is shown when every selector
    is ["all"]: a selector only narrows. *)
Theorem calendar_posts_stable_narrowing (allPosts : list Post.t)
    (allAccounts : list SocialAccount.t)
    (selectedWorkspace selectedPlatform selectedAccount : string) :
  let shown := Calendar.visible allPosts allAccounts
                 selectedWorkspace selectedPlatform selectedAccount in
  shown `sublist_of` allPosts
  ∧ (∀ p, p ∈ shown → p ∈ allPosts)
  ∧ shown `sublist_of` Calendar.visible allPosts allAccounts "all" "all" "all"
  ∧ Calendar.filteredAccounts allAccounts selectedWorkspace selectedPlatform
    `sublist_of` allAccounts.
Proof.
  intros shown.
  assert (Hsub : shown `sublist_of` allPosts) by apply posts_sublist.
  split; [exact Hsub |].
  split; [intros p Hp; by apply (sublist_subseteq _ _ Hsub) |].
  split; [| apply filteredAccounts_sublist].
  rewrite visible_all. subst shown. unfold Calendar.visible.
  etrans; [apply posts_sublist_by_account |].
  apply array_filter_mono. intros q.
  destruct (truthy (Post.social_account_id q)); [| done].
  apply has_mono, sublist_subseteq, fmap_sublist, filteredAccounts_sublist.
Qed.

(** ** The store's answers *)

Lemma approve_post_inr srv d pid st r d' :
  Store.approve_post srv d pid st r = inr d' →
  (∃ p, find (λ p, Post.id p === pid) (posts d) = Some p
        ∧ RoleResolution.canApprove (caller srv) (Post.workspace_id p) = true
        ∧ Post.status p = "sent_to_client")
  ∧ posts d' = map (λ q, if Post.id q === pid
                         then Store.set_verdict srv st r q else q) (posts d)
  ∧ comments d' = comments d
  ∧ audit_logs d' = audit_logs d.
Proof.
  unfold Store.approve_post.
  destruct (find _ (posts d)) as [p |]; [| discriminate].
  destruct (RoleResolution.canApprove _ _) eqn:Hcan; [| discriminate].
  destruct (Post.status p === "sent_to_client") eqn:Hst; [| discriminate].
  simpl. intros [= <-]. simpl. apply str_eq_true in Hst. eauto 10.
Qed.

Lemma approve_post_ok srv d pid st r p :
  find (λ p, Post.id p === pid) (posts d) = Some p →
  RoleResolution.canApprove (caller srv) (Post.workspace_id p) = true →
  Post.status p = "sent_to_client" →
  Store.approve_post srv d pid st r
  = inr {| posts := map (λ q, if Post.id q === pid
                              then Store.set_verdict srv st r q else q) (posts d);
           comments := comments d;
           audit_logs := audit_logs d |}.
Proof.
  intros Hf Hcan Hst. unfold Store.approve_post. rewrite Hf, Hcan, Hst.
  reflexivity.
Qed.

Lemma set_verdict_id srv st r q : Post.id (Store.set_verdict srv st r q) = Post.id q.
Proof. unfold Store.set_verdict. by destruct (st === "approved"). Qed.

Lemma set_verdict_workspace srv st r q :
  Post.workspace_id (Store.set_verdict srv st r q) = Post.workspace_id q.
Proof. unfold Store.set_verdict. by destruct (st === "approved"). Qed.

Lemma set_verdict_approval srv st r q :
  Post.approval_status (Store.set_verdict srv st r q) = Some st.
Proof. unfold Store.set_verdict. by destruct (st === "approved"). Qed.

Lemma serve_rows srv d c d' :
  Store.serve srv d c = inr d' →
  audit_logs d' = audit_logs d ++ audit_row_of c
  ∧ comments d' = comments d ++ comment_row_of c.
Proof.
  destruct c as [pid st r | row | row]; simpl.
  - intros (_ & _ & -> & ->)%approve_post_inr. by rewrite !app_nil_r.
  - intros [= <-]. simpl. by rewrite app_nil_r.
  - intros [= <-]. simpl. by rewrite app_nil_r.
Qed.

(** A run only appends to the audit log and to the comments, and what it
    appends are rows of the insert calls of the handler, in program
    order. *)
Lemma run_appends srv faults p : ∀ d,
  ∃ la lc,
    audit_logs (run srv faults d p).1 = audit_logs d ++ la
    ∧ comments (run srv faults d p).1 = comments d ++ lc
    ∧ la `sublist_of` (calls p ≫= audit_row_of)
    ∧ lc `sublist_of` (calls p ≫= comment_row_of).
Proof.
  induction p as [| c k IH]; intros d; simpl.
  - exists [], []. by rewrite !app_nil_r.
  - destruct (faults c) as [e |].
    { exists [], []. rewrite !app_nil_r. split_and!; auto using sublist_nil_l. }
    destruct (Store.serve srv d c) as [e | d1] eqn:Hserve.
    { exists [], []. rewrite !app_nil_r. split_and!; auto using sublist_nil_l. }
    destruct (serve_rows _ _ _ _ Hserve) as (Ha & Hc).
    destruct (IH d1) as (la & lc & Hla & Hlc & Sa & Sc).
    exists (audit_row_of c ++ la), (comment_row_of c ++ lc).
    rewrite Hla, Hlc, Ha, Hc, <- !app_assoc.
    split_and!; auto; by apply sublist_app.
Qed.

Lemma run_new_rows_in srv faults d p w pid :
  Forall (λ a, AuditLog.workspace_id a = w ∧ AuditLog.entity_id a = pid)
         (calls p ≫= audit_row_of) →
  Forall (λ c, Comment.workspace_id c = w ∧ Comment.post_id c = pid)
         (calls p ≫= comment_row_of) →
  new_rows_in w pid d (run srv faults d p).1.
Proof.
  intros Fa Fc.
  destruct (run_appends srv faults p d) as (la & lc & Hla & Hlc & Sa & Sc).
  exists la, lc. split_and!; auto.
  - eapply Forall_forall. intros a Ha.
    eapply (proj1 (Forall_forall _ _) Fa), sublist_subseteq; eauto.
  - eapply Forall_forall. intros c Hc.
    eapply (proj1 (Forall_forall _ _) Fc), sublist_subseteq; eauto.
Qed.

(** C5: whatever the store answers and whichever calls fail, the audit
    entries and comments that a run of [handleApprove] or of
    [handleRequestChanges] on a post adds carry that post's workspace
    (and name that post); no row with another workspace is produced. *)
Theorem approval_rows_stay_in_workspace (v : PostApproval.view) (srv : server)
    (faults : remote_call → option failure) (d : db) :
  let w1 := Post.workspace_id (PostApproval.post v) in
  let pid := Post.id (PostApproval.post v) in
  new_rows_in w1 pid d (run srv faults d (PostApproval.handleApprove v)).1
  ∧ new_rows_in w1 pid d (run srv faults d (PostApproval.handleRequestChanges v)).1.
Proof.
  intros w1 pid.
  split; apply run_new_rows_in;
    unfold PostApproval.handleApprove, PostApproval.handleRequestChanges;
    try destruct (truthy_str _); simpl; by repeat constructor.
Qed.

(** ** Runs of a handler *)

Lemma run_fault srv faults d c k e :
  faults c = Some e → run srv faults d (Await c k) = (d, Threw e).
Proof. intros H. simpl. by rewrite H. Qed.

Lemma run_refused srv faults d c k e :
  faults c = None → Store.serve srv d c = inl e →
  run srv faults d (Await c k) = (d, Threw e).
Proof. intros H1 H2. simpl. by rewrite H1, H2. Qed.

Lemma run_answered srv faults d c k d1 :
  faults c = None → Store.serve srv d c = inr d1 →
  run srv faults d (Await c k) = run srv faults d1 k.
Proof. intros H1 H2. simpl. by rewrite H1, H2. Qed.

Lemma run_ok_inv srv faults d c k d' :
  run srv faults d (Await c k) = (d', Ok) →
  faults c = None
  ∧ ∃ d1, Store.serve srv d c = inr d1 ∧ run srv faults d1 k = (d', Ok).
Proof.
  simpl. destruct (faults c); [discriminate |].
  destruct (Store.serve srv d c) as [e | d1]; [discriminate |]. eauto.
Qed.

Lemma truthy_str_true (s : string) : truthy_str s = true ↔ s ≠ "".
Proof. unfold truthy_str. by rewrite negb_true_iff, str_eq_false. Qed.

Lemma truthy_str_false (s : string) : truthy_str s = false ↔ s = "".
Proof. unfold truthy_str. by rewrite negb_false_iff, str_eq_true. Qed.

Section RequestChanges.
Import PostApproval.
Variables (v : view) (srv : server) (faults : remote_call → option failure).

Lemma handleRequestChanges_with_reason :
  rejectReason v ≠ "" →
  handleRequestChanges v
  = Await (mutation_call v) (Await (comment_call v) (Await (audit_call v) Done)).
Proof.
  intros Hr%truthy_str_true.
  unfold handleRequestChanges, mutation_call, audit_call, comment_call,
    updateMutation, createComment, createAuditLog, reason_or_null.
  by rewrite Hr.
Qed.

Lemma handleRequestChanges_without_reason :
  rejectReason v = "" →
  handleRequestChanges v = Await (mutation_call v) (Await (audit_call v) Done).
Proof.
  intros Hr%truthy_str_false.
  unfold handleRequestChanges, mutation_call, audit_call,
    updateMutation, createAuditLog, reason_or_null.
  by rewrite Hr.
Qed.

(** When the status mutation is not answered, nothing is written. *)
Lemma request_changes_mutation_fails d :
  (is_Some (faults (mutation_call v))
   ∨ ∃ e, Store.serve srv d (mutation_call v) = inl e) →
  (run srv faults d (handleRequestChanges v)).1 = d.
Proof.
  intros Hfail.
  assert (Hrun : ∀ k, (run srv faults d (Await (mutation_call v) k)).1 = d).
  { intros k. destruct (faults (mutation_call v)) as [e |] eqn:Hf.
    - by rewrite (run_fault _ _ _ _ _ e).
    - destruct Hfail as [[e He] | [e He]]; [discriminate |].
      by rewrite (run_refused _ _ _ _ _ e). }
  destruct (decide (rejectReason v = "")) as [Hr | Hr].
  - rewrite handleRequestChanges_without_reason by done. apply Hrun.
  - rewrite handleRequestChanges_with_reason by done. apply Hrun.
Qed.

(** When the status mutation is answered and the comment insert fails,
    the handler throws there: the verdict stays, no audit entry is
    written. *)
Lemma request_changes_comment_fails d d1 e :
  rejectReason v ≠ "" →
  faults (mutation_call v) = None →
  Store.serve srv d (mutation_call v) = inr d1 →
  faults (comment_call v) = Some e →
  run srv faults d (handleRequestChanges v) = (d1, Threw e).
Proof.
  intros Hr Hm Hs Hc. rewrite handleRequestChanges_with_reason by done.
  rewrite (run_answered _ _ _ _ _ d1) by done. by apply run_fault.
Qed.

(** When both are answered, the comment is in the store, whatever
    happens to the audit insert. *)
Lemma request_changes_comment_written d d1 :
  rejectReason v ≠ "" →
  faults (mutation_call v) = None →
  Store.serve srv d (mutation_call v) = inr d1 →
  faults (comment_call v) = None →
  comments (run srv faults d (handleRequestChanges v)).1
  = comments d ++ comment_row_of (comment_call v).
Proof.
  intros Hr Hm Hs Hc. rewrite handleRequestChanges_with_reason by done.
  rewrite (run_answered _ _ _ _ _ d1) by done.
  rewrite (run_answered _ _ _ _ _ (Store.insert_comment d1 _)) by done.
  apply serve_rows in Hs as (_ & Hcs). simpl in Hcs. rewrite app_nil_r in Hcs.
  simpl. destruct (faults (audit_call v)); simpl; by rewrite Hcs.
Qed.

End RequestChanges.

(** C4: a run of [handleRequestChanges] with a non-empty reason [r], in
    which the status mutation and the comment insert are answered (in
    particular every run that completes), appends exactly one comment,
    with content ["Changes requested: " ++ r] and [is_internal = false];
    with no reason the handler makes the status mutation and the audit
    insert only, and no comment is appended. *)
Theorem request_changes_comment (v : PostApproval.view) (srv : server)
    (faults : remote_call → option failure) (d d1 : db) :
  let out := run srv faults d (PostApproval.handleRequestChanges v) in
  let row := {| Comment.post_id := Post.id (PostApproval.post v);
                Comment.workspace_id := Post.workspace_id (PostApproval.post v);
                Comment.content :=
                  ("Changes requested: " ++ PostApproval.rejectReason v)%string;
                Comment.is_internal := false |} in
  (PostApproval.rejectReason v ≠ "" →
   faults (mutation_call v) = None →
   Store.serve srv d (mutation_call v) = inr d1 →
   faults (InsertComment row) = None →
   comments out.1 = comments d ++ [row])
  ∧ (PostApproval.rejectReason v ≠ "" → out.2 = Ok →
     comments out.1 = comments d ++ [row])
  ∧ (PostApproval.rejectReason v = "" →
     comments out.1 = comments d
     ∧ calls (PostApproval.handleRequestChanges v)
       = [mutation_call v; audit_call v]).
Proof.
  intros out row. split_and!.
  - intros Hr Hm Hs Hc. subst out.
    by rewrite (request_changes_comment_written v srv faults d d1).
  - intros Hr Hok. subst out.
    destruct (run srv faults d _) as [d' r] eqn:Hrun. simpl in Hok. subst r.
    pose proof Hrun as Hrun'.
    rewrite handleRequestChanges_with_reason in Hrun' by done.
    apply run_ok_inv in Hrun' as (Hm & d2 & Hs & Hrun').
    apply run_ok_inv in Hrun' as (Hc & _).
    pose proof (request_changes_comment_written v srv faults d d2 Hr Hm Hs Hc)
      as Hw.
    by rewrite Hrun in Hw.
  - intros Hr. subst out. rewrite handleRequestChanges_without_reason by done.
    split; [| reflexivity].
    destruct (run_appends srv faults
                (Await (mutation_call v) (Await (audit_call v) Done)) d)
      as (la & lc & _ & Hlc & _ & Sc).
    simpl in Sc. apply sublist_nil_r in Sc. subst lc.
    by rewrite app_nil_r in Hlc.
Qed.

Lemma request_changes_comment_witness :
  PostApproval.rejectReason (view_p1 "fix the caption") ≠ ""
  ∧ (run server_approver no_faults store_p1
       (PostApproval.handleRequestChanges (view_p1 "fix the caption"))).2 = Ok
  ∧ comments (run server_approver no_faults store_p1
                (PostApproval.handleRequestChanges (view_p1 "fix the caption"))).1
    = [{| Comment.post_id := "p1"; Comment.workspace_id := "w1";
          Comment.content := "Changes requested: fix the caption";
          Comment.is_internal := false |}].
Proof.
  assert (Hr : PostApproval.rejectReason (view_p1 "fix the caption") ≠ "")
    by discriminate.
  split; [exact Hr |]. split; [reflexivity |].
  exact (proj1 (proj2 (request_changes_comment (view_p1 "fix the caption")
                         server_approver no_faults store_p1 store_p1))
           Hr eq_refl).
Defined.

(** C3, as stated, fails: with reason ["fix the caption"], when the
    status mutation is answered and the comment insert fails, the handler
    throws; the post is left with the verdict and no audit entry is
    appended, while the same run without the failure appends one. *)
Lemma comment_failure_prevents_audit_entry :
  let v := view_p1 "fix the caption" in
  let failed := run server_approver comment_insert_fails store_p1
                  (PostApproval.handleRequestChanges v) in
  let clean := run server_approver no_faults store_p1
                 (PostApproval.handleRequestChanges v) in
  comment_insert_fails (mutation_call v) = None
  ∧ comment_insert_fails (comment_call v) = Some WriteError
  ∧ failed.2 = Threw WriteError
  ∧ Post.approval_status <$> posts failed.1 = [Some "changes_requested"]
  ∧ audit_logs failed.1 = []
  ∧ length (audit_logs clean.1) = 1.
Proof. repeat split. Qed.

(** C3, amended: in [handleRequestChanges] the comment insert comes after
    the status mutation and before the audit insert. When the status
    mutation is not answered nothing is written, so no comment is
    attempted. When it is answered and the comment insert fails, the
    handler throws there: the verdict written by the mutation stays (no
    roll-back), and the run ends before the audit insert, so the audit
    log is as before. *)
Theorem request_changes_comment_after_mutation (v : PostApproval.view)
    (srv : server) (faults : remote_call → option failure) (d d1 : db)
    (e : failure) :
  calls (PostApproval.handleRequestChanges v)
  = mutation_call v
      :: (if truthy_str (PostApproval.rejectReason v) then [comment_call v] else [])
      ++ [audit_call v]
  ∧ (is_Some (faults (mutation_call v))
     ∨ (∃ e', Store.serve srv d (mutation_call v) = inl e') →
     (run srv faults d (PostApproval.handleRequestChanges v)).1 = d)
  ∧ (PostApproval.rejectReason v ≠ "" →
     faults (mutation_call v) = None →
     Store.serve srv d (mutation_call v) = inr d1 →
     faults (comment_call v) = Some e →
     run srv faults d (PostApproval.handleRequestChanges v) = (d1, Threw e)
     ∧ Forall (λ p, Post.id p = Post.id (PostApproval.post v)
                    → Post.approval_status p = Some "changes_requested")
              (posts d1)
     ∧ comments d1 = comments d
     ∧ audit_logs d1 = audit_logs d).
Proof.
  split_and!.
  - destruct (truthy_str (PostApproval.rejectReason v)) eqn:Hr.
    + apply truthy_str_true in Hr.
      by rewrite handleRequestChanges_with_reason.
    + apply truthy_str_false in Hr.
      by rewrite handleRequestChanges_without_reason.
  - apply request_changes_mutation_fails.
  - intros Hr Hm Hs Hc.
    split; [by apply request_changes_comment_fails |].
    simpl in Hs. apply approve_post_inr in Hs as (_ & Hp & Hcs & Hal).
    split; [| done].
    rewrite Hp. apply Forall_forall. intros p (q & -> & Hq)%list_elem_of_fmap.
    destruct (Post.id q === Post.id (PostApproval.post v)) eqn:Hid.
    + intros _. apply set_verdict_approval.
    + rewrite str_eq_false in Hid. done.
Qed.

Lemma request_changes_comment_after_mutation_witness :
  let v := view_p1 "fix the caption" in
  let d1 := {| posts := [Store.set_verdict server_approver "changes_requested"
                           (Some "fix the caption") post_p1];
               comments := []; audit_logs := [] |} in
  PostApproval.rejectReason v ≠ ""
  ∧ comment_insert_fails (mutation_call v) = None
  ∧ Store.serve server_approver store_p1 (mutation_call v) = inr d1
  ∧ comment_insert_fails (comment_call v) = Some WriteError
  ∧ run server_approver comment_insert_fails store_p1
      (PostApproval.handleRequestChanges v) = (d1, Threw WriteError)
  ∧ audit_logs d1 = audit_logs store_p1.
Proof.
  intros v d1.
  assert (Hr : PostApproval.rejectReason v ≠ "") by discriminate.
  split; [exact Hr |]. split; [reflexivity |]. split; [reflexivity |].
  split; [reflexivity |].
  destruct (proj2 (proj2 (request_changes_comment_after_mutation v
                            server_approver comment_insert_fails store_p1 d1
                            WriteError))
              Hr eq_refl eq_refl eq_refl) as (Hrun & _ & _ & Hal).
  split; [exact Hrun | exact Hal].
Defined.

(** ** Approving *)

Section Approve.
Import PostApproval.
Variables (v : view) (srv : server).

Lemma handleApprove_calls :
  handleApprove v = Await (approve_call v) (Await (InsertAuditLog (approved_entry v)) Done).
Proof. reflexivity. Qed.

(** The three ways a run of [handleApprove] ends: the status mutation
    is not answered and nothing is written; it is answered and the
    audit insert fails, which leaves the mutation alone in the store;
    both are answered. *)
Lemma handleApprove_outcomes faults d :
  let out := run srv faults d (handleApprove v) in
  (∃ e, out = (d, Threw e))
  ∨ ∃ d1, Store.serve srv d (approve_call v) = inr d1
          ∧ ((∃ e, out = (d1, Threw e))
             ∨ out = (Store.insert_audit_log d1 (approved_entry v), Ok)).
Proof.
  intros out. subst out. rewrite handleApprove_calls.
  destruct (faults (approve_call v)) as [e |] eqn:Hf.
  { left. exists e. by apply run_fault. }
  destruct (Store.serve srv d (approve_call v)) as [e | d1] eqn:Hs.
  { left. exists e. by apply run_refused. }
  right. exists d1. split; [done |].
  rewrite (run_answered _ _ _ _ _ d1) by done.
  destruct (faults (InsertAuditLog (approved_entry v))) as [e |] eqn:Hf2.
  - left. exists e. by apply run_fault.
  - right. by rewrite (run_answered _ _ _ _ _
                         (Store.insert_audit_log d1 (approved_entry v))).
Qed.


(** Approving what is approved already rewrites the same status. *)
Lemma reapprove_keeps_status (ps : list Post.t) :
  (∀ q, q ∈ ps → Post.id q = Post.id (post v)
        → Post.approval_status q = Some "approved") →
  Post.approval_status
    <$> map (λ q, if Post.id q === Post.id (post v)
                  then Store.set_verdict srv "approved" None q else q) ps
  = Post.approval_status <$> ps.
Proof.
  induction ps as [| q ps IH]; intros Hall; [reflexivity |].
  simpl. f_equal.
  - destruct (Post.id q === Post.id (post v)) eqn:Hid; [| reflexivity].
    apply str_eq_true in Hid. rewrite set_verdict_approval.
    symmetry. apply Hall; [left | done].
  - apply IH. intros q' Hq'. apply Hall. by right.
Qed.

End Approve.

(** C6: against the store function as the specification gives it, a run
    of [handleApprove] on a post that is approved already, still sent to
    the client, by a caller who may approve in its workspace and with no
    call failing, completes; the approval status of every post is as
    before, and the audit log is longer by exactly one entry, the
    [approved] entry of this run. *)
Theorem approve_already_approved (v : PostApproval.view) (srv : server)
    (d : db) (p : Post.t) :
  find (λ q, Post.id q === Post.id (PostApproval.post v)) (posts d) = Some p →
  (∀ q, q ∈ posts d → Post.id q = Post.id (PostApproval.post v)
        → Post.approval_status q = Some "approved") →
  Post.status p = "sent_to_client" →
  RoleResolution.canApprove (caller srv) (Post.workspace_id p) = true →
  let out := run srv no_faults d (PostApproval.handleApprove v) in
  out.2 = Ok
  ∧ Post.approval_status <$> posts out.1 = Post.approval_status <$> posts d
  ∧ length (audit_logs out.1) = S (length (audit_logs d))
  ∧ audit_logs out.1 = audit_logs d ++ [approved_entry v]
  ∧ AuditLog.action (approved_entry v) = "approved".
Proof.
  intros Hfind Happroved Hstatus Hcan out. subst out.
  rewrite handleApprove_calls.
  pose proof (approve_post_ok srv d _ "approved" None p Hfind Hcan Hstatus)
    as Hserve.
  erewrite run_answered; [| reflexivity | exact Hserve].
  simpl. split_and!; auto.
  - by apply reapprove_keeps_status.
  - rewrite length_app. simpl. lia.
Qed.

Lemma approve_already_approved_witness :
  let out := run server_approver no_faults store_p1_approved
               (PostApproval.handleApprove (view_p1 "")) in
  Post.approval_status <$> posts store_p1_approved = [Some "approved"]
  ∧ out.2 = Ok
  ∧ Post.approval_status <$> posts out.1 = [Some "approved"]
  ∧ length (audit_logs out.1) = 2.
Proof.
  intros out.
  destruct (approve_already_approved (view_p1 "") server_approver
              store_p1_approved post_p1_approved) as (Hok & Hst & Hlen & _).
  - reflexivity.
  - intros q Hq _. apply list_elem_of_singleton in Hq. by subst q.
  - reflexivity.
  - reflexivity.
  - split; [reflexivity |]. split; [exact Hok |].
    split; [exact Hst | exact Hlen].
Defined.

(** ** Interleaved sessions *)

Lemma tail_for_ok d pid p : post_decided d pid → tail_for pid p → tail_ok d p.
Proof.
  intros Hd. induction p as [| c k IH]; simpl; [done |].
  intros [Hc Hk]. split; [| auto].
  destruct c as [| |a]; auto. by rewrite Hc.
Qed.

Lemma tail_ok_task_ok d p : tail_ok d p → task_ok d p.
Proof. destruct p as [| [| |] k]; simpl; tauto. Qed.

Lemma tail_ok_mono d d' p :
  (∀ pid, post_decided d pid → post_decided d' pid) → tail_ok d p → tail_ok d' p.
Proof.
  intros Hmono. induction p as [| c k IH]; simpl; [done |].
  intros [Hc Hk]. split; [| auto]. destruct c; auto.
Qed.

Lemma task_ok_mono d d' p :
  (∀ pid, post_decided d pid → post_decided d' pid) → task_ok d p → task_ok d' p.
Proof.
  intros Hmono. destruct p as [| c k]; [done |].
  destruct c; simpl; try tauto.
  - intros [_ Hk]. split; [done |]. by eapply tail_ok_mono.
  - intros [Ha Hk]. split; [auto |]. by eapply tail_ok_mono.
Qed.

Lemma handleApprove_task_ok d v : task_ok d (PostApproval.handleApprove v).
Proof. simpl. split; [by left |]. simpl. auto. Qed.

Lemma handleRequestChanges_task_ok d v :
  task_ok d (PostApproval.handleRequestChanges v).
Proof.
  unfold PostApproval.handleRequestChanges.
  destruct (truthy_str _); simpl; (split; [by right |]); simpl; auto.
Qed.

(** The approval function gives its post a verdict and takes none away. *)
Lemma approve_post_decides srv d pid st r d' :
  valid_verdict st →
  Store.approve_post srv d pid st r = inr d' →
  post_decided d' pid ∧ ∀ pid', post_decided d pid' → post_decided d' pid'.
Proof.
  intros Hv ((p & Hfind & _ & _) & Hposts & _ & _)%approve_post_inr.
  set (upd := λ q, if Post.id q === pid then Store.set_verdict srv st r q else q)
    in Hposts.
  assert (Hupd_id : ∀ q, Post.id (upd q) = Post.id q).
  { intros q. unfold upd. destruct (_ === _); [apply set_verdict_id | done]. }
  assert (Hupd_in : ∀ q, q ∈ posts d → upd q ∈ posts d').
  { intros q Hq. rewrite Hposts. by apply list_elem_of_In, in_map, list_elem_of_In. }
  split.
  - apply find_some in Hfind as [Hin Hid]. apply list_elem_of_In in Hin.
    exists (upd p). rewrite Hupd_id.
    split; [auto |]. split; [by apply str_eq_true |].
    unfold upd. rewrite Hid, set_verdict_approval.
    destruct Hv as [-> | ->]; auto.
  - intros pid' (q & Hin & Hid & Hq). exists (upd q). rewrite Hupd_id.
    split; [auto |]. split; [done |].
    unfold upd. destruct (_ === _); [| done].
    rewrite set_verdict_approval. destruct Hv as [-> | ->]; auto.
Qed.

Lemma insert_keeps_decided d d' pid :
  posts d' = posts d → post_decided d pid → post_decided d' pid.
Proof. unfold post_decided. by intros ->. Qed.

Lemma step_audited_after_verdict s s' :
  step s s' → audited_after_verdict s → audited_after_verdict s'.
Proof.
  intros Hstep [Hlog Htasks].
  destruct Hstep as [s srv v _ | s srv v _ | s i srv c k d' Hi Hserve | s i srv c k Hi];
    unfold audited_after_verdict; simpl.
  - split; [done |]. apply Forall_app. split; [done |].
    apply Forall_singleton, handleApprove_task_ok.
  - split; [done |]. apply Forall_app. split; [done |].
    apply Forall_singleton, handleRequestChanges_task_ok.
  - pose proof (proj1 (Forall_lookup _ _) Htasks i _ Hi) as Hti. simpl in Hti.
    destruct c as [pid st r | row | row]; simpl in Hserve, Hti.
    + destruct Hti as [Hv Hk].
      destruct (approve_post_decides _ _ _ _ _ _ Hv Hserve) as [Hdec Hmono].
      apply approve_post_inr in Hserve as (_ & _ & _ & Hal).
      split.
      * rewrite Hal. auto.
      * apply Forall_insert.
        -- eapply Forall_impl; [exact Htasks |].
           intros t. by apply task_ok_mono.
        -- simpl. eapply tail_ok_task_ok, tail_for_ok; eauto.
    + injection Hserve as <-. destruct Hti as [_ Hk].
      assert (Hmono : ∀ pid, post_decided (store s) pid
                → post_decided (Store.insert_comment (store s) row) pid)
        by (intros pid; by apply insert_keeps_decided).
      split; [intros a Ha; by apply Hmono, Hlog |].
      apply Forall_insert.
      * eapply Forall_impl; [exact Htasks |]. intros t. by apply task_ok_mono.
      * apply tail_ok_task_ok. by eapply tail_ok_mono.
    + injection Hserve as <-. destruct Hti as [Hrow Hk].
      assert (Hmono : ∀ pid, post_decided (store s) pid
                → post_decided (Store.insert_audit_log (store s) row) pid)
        by (intros pid; by apply insert_keeps_decided).
      split.
      * simpl. intros a [Ha | Ha%list_elem_of_singleton]%elem_of_app.
        -- by apply Hmono, Hlog.
        -- subst a. by apply Hmono.
      * apply Forall_insert.
        -- eapply Forall_impl; [exact Htasks |].
           intros t. by apply task_ok_mono.
        -- apply tail_ok_task_ok. by eapply tail_ok_mono.
  - split; [done |]. by apply Forall_insert.
Qed.

Lemma reachable_audited_after_verdict s0 s :
  reachable s0 s → audited_after_verdict s0 → audited_after_verdict s.
Proof.
  induction 1 as [| s1 s2 s3 Hstep _ IH]; [done |].
  intros Hinv. apply IH. by eapply step_audited_after_verdict.
Qed.

Lemma reach_after_mutation : reachable sessions_start after_mutation.
Proof.
  apply rtc_l with approve_clicked.
  - change approve_clicked with
      {| store := store sessions_start;
         tasks := tasks sessions_start
                  ++ [Task server_approver
                        (PostApproval.handleApprove (view_p1 ""))] |}.
    by apply step_approve.
  - apply rtc_once.
    change after_mutation with
      {| store := store_p1_mutated;
         tasks := <[0 := Task server_approver
                           (Await (InsertAuditLog (approved_entry (view_p1 "")))
                                  Done)]>
                    (tasks approve_clicked) |}.
    by apply (step_answer approve_clicked 0 server_approver
                (approve_call (view_p1 ""))).
Qed.

Lemma reach_after_audit_failure : reachable sessions_start after_audit_failure.
Proof.
  eapply rtc_r; [apply reach_after_mutation |].
  change after_audit_failure with
    {| store := store after_mutation;
       tasks := <[0 := Task server_approver Done]> (tasks after_mutation) |}.
  by apply (step_throw after_mutation 0 server_approver
              (InsertAuditLog (approved_entry (view_p1 ""))) Done).
Qed.

Lemma reach_after_audit : reachable sessions_start after_audit.
Proof.
  eapply rtc_r; [apply reach_after_mutation |].
  change after_audit with
    {| store := store_p1_approved;
       tasks := <[0 := Task server_approver Done]> (tasks after_mutation) |}.
  by apply (step_answer after_mutation 0 server_approver
              (InsertAuditLog (approved_entry (view_p1 ""))) Done).
Qed.

(** C2, as stated, fails: from the store that holds [p1] awaiting review
    and an empty audit log, one click on Approve reaches a state in which
    [p1] is approved and no audit entry names it, once when the status
    mutation has been answered and the audit insert is still to come,
    and again, for good, when the audit insert fails. *)
Lemma approved_without_audit_entry :
  PostApproval.render (view_p1 "") = PostApproval.Controls
  ∧ reachable sessions_start after_mutation
  ∧ approved_unaudited (store after_mutation) "p1"
  ∧ reachable sessions_start after_audit_failure
  ∧ approved_unaudited (store after_audit_failure) "p1"
  ∧ Forall (λ t, t_prog t = Done) (tasks after_audit_failure).
Proof.
  assert (Hun : approved_unaudited store_p1_mutated "p1").
  { split.
    - exists post_p1_approved. split; [by left | by split].
    - intros a Ha. by apply elem_of_nil in Ha. }
  split; [reflexivity |].
  split; [apply reach_after_mutation |]. split; [exact Hun |].
  split; [apply reach_after_audit_failure |]. split; [exact Hun |].
  by apply Forall_singleton.
Qed.

(** C2, amended: the status mutation and the audit entry are two commits,
    in that order. A run of [handleApprove] ends in one of three ways:
    nothing written; the mutation written and the audit insert failed;
    both written, the audit entry last. Under any interleaving of approve
    and request-changes handlers, started from a store with an empty
    audit log, every audit entry in a reachable state names a post that
    has a verdict: no audit entry is seen without the status change it
    records. *)
Theorem audit_entry_only_after_verdict (s0 s : system) (v : PostApproval.view)
    (srv : server) (faults : remote_call → option failure) (d : db) :
  tasks s0 = [] →
  audit_logs (store s0) = [] →
  reachable s0 s →
  (∀ a, a ∈ audit_logs (store s) → post_decided (store s) (AuditLog.entity_id a))
  ∧ let out := run srv faults d (PostApproval.handleApprove v) in
    ((∃ e, out = (d, Threw e))
     ∨ ∃ d1, Store.serve srv d (approve_call v) = inr d1
             ∧ ((∃ e, out = (d1, Threw e))
                ∨ out = (Store.insert_audit_log d1 (approved_entry v), Ok))).
Proof.
  intros Htasks Hlog Hreach. split; [| apply handleApprove_outcomes].
  apply (reachable_audited_after_verdict s0 s Hreach).
  split.
  - rewrite Hlog. intros a Ha. by apply elem_of_nil in Ha.
  - rewrite Htasks. constructor.
Qed.

Lemma audit_entry_only_after_verdict_witness :
  tasks sessions_start = []
  ∧ audit_logs (store sessions_start) = []
  ∧ reachable sessions_start after_audit
  ∧ ∀ a, a ∈ audit_logs (store after_audit)
         → post_decided (store after_audit) (AuditLog.entity_id a).
Proof.
  split; [reflexivity |]. split; [reflexivity |].
  split; [apply reach_after_audit |].
  exact (proj1 (audit_entry_only_after_verdict sessions_start after_audit
                  (view_p1 "") server_approver no_faults store_p1
                  eq_refl eq_refl reach_after_audit)).
Defined.

(** * Further properties of the components *)

(** ** The session provider's helpers *)

Lemma isAdmin_false_iff (st : AuthProviderSession.state) :
  AuthProviderSession.isAdmin st = false
  ↔ AuthProviderSession.globalRole st ≠ "admin".
Proof. apply str_eq_false. Qed.

Lemma find_client_Some (ms : list Membership.t) (m : Membership.t) :
  find (λ m, (Membership.role m === "client_viewer")
             || (Membership.role m === "client_approver")) ms = Some m →
  m ∈ ms ∧ (Membership.role m = "client_viewer"
            ∨ Membership.role m = "client_approver").
Proof.
  intros [Hin Hr]%find_some. split; [by apply list_elem_of_In |].
  apply orb_true_iff in Hr. by rewrite !str_eq_true in Hr.
Qed.

Lemma find_client_None (ms : list Membership.t) :
  find (λ m, (Membership.role m === "client_viewer")
             || (Membership.role m === "client_approver")) ms = None
  ↔ some (λ m, (Membership.role m === "client_viewer")
               || (Membership.role m === "client_approver")) ms = false.
Proof.
  rewrite some_false. split.
  - intros Hnone m Hm. apply list_elem_of_In in Hm.
    apply (find_none _ _ Hnone m Hm).
  - intros Hall. destruct (find _ ms) as [m |] eqn:Hf; [| done].
    apply find_some in Hf as [Hin Hr]. apply list_elem_of_In in Hin.
    rewrite (Hall m Hin) in Hr. discriminate.
Qed.

(** X1: an account whose global role is admin may approve and has access
    in every workspace, whatever its membership rows, and has no client
    workspace. *)
Theorem admin_has_every_capability (st : AuthProviderSession.state) (w : string) :
  AuthProviderSession.globalRole st = "admin" →
  AuthProviderSession.isAdmin st = true
  ∧ AuthProviderSession.canApprove_at st w = true
  ∧ AuthProviderSession.hasAccessToWorkspace st w = true
  ∧ AuthProviderSession.getClientWorkspaceId st = None.
Proof.
  intros Hadmin%isAdmin_true.
  unfold AuthProviderSession.canApprove_at, AuthProviderSession.canApprove,
    AuthProviderSession.hasAccessToWorkspace,
    AuthProviderSession.getClientWorkspaceId.
  by rewrite Hadmin.
Qed.

Lemma admin_has_every_capability_witness :
  AuthProviderSession.globalRole admin_with_viewer_row = "admin"
  ∧ AuthProviderSession.canApprove_at admin_with_viewer_row "w7" = true
  ∧ AuthProviderSession.hasAccessToWorkspace admin_with_viewer_row "w7" = true
  ∧ AuthProviderSession.getClientWorkspaceId admin_with_viewer_row = None.
Proof.
  split; [reflexivity |].
  exact (proj2 (admin_has_every_capability admin_with_viewer_row "w7" eq_refl)).
Defined.

Lemma clientWorkspace_Some (st : AuthProviderSession.state) (w : string) :
  AuthProviderSession.getClientWorkspaceId st = Some w →
  AuthProviderSession.isAdmin st = false
  ∧ AuthProviderSession.isClient st = true
  ∧ AuthProviderSession.hasAccessToWorkspace st w = true
  ∧ ∃ m, m ∈ AuthProviderSession.memberships st
         ∧ Membership.workspace_id m = w
         ∧ (Membership.role m = "client_viewer"
            ∨ Membership.role m = "client_approver").
Proof.
  unfold AuthProviderSession.getClientWorkspaceId.
  destruct (AuthProviderSession.isAdmin st) eqn:Hadmin; [discriminate |].
  destruct (find _ _) as [m |] eqn:Hfind; [| discriminate].
  intros [= <-]. apply find_client_Some in Hfind as [Hin Hrole].
  split; [done |]. split; [apply some_client; eauto |].
  split; [| eauto]. apply hasAccessToWorkspace_true. right. eauto.
Qed.

Lemma clientWorkspace_None (st : AuthProviderSession.state) :
  AuthProviderSession.getClientWorkspaceId st = None
  ↔ AuthProviderSession.isAdmin st = true
    ∨ AuthProviderSession.isClient st = false.
Proof.
  unfold AuthProviderSession.getClientWorkspaceId.
  destruct (AuthProviderSession.isAdmin st) eqn:Hadmin.
  { split; auto. }
  rewrite fmap_None, find_client_None. unfold AuthProviderSession.isClient.
  split; [auto | intros [H | H]; [discriminate | done]].
Qed.

(** X2: when [getClientWorkspaceId()] answers a workspace, the account is
    not admin, is a client, has access to that workspace, and holds a
    client membership in it; it answers [null] exactly for admins and
    for accounts that are not clients. *)
Theorem getClientWorkspaceId_sound (st : AuthProviderSession.state) (w : string) :
  (AuthProviderSession.getClientWorkspaceId st = Some w →
   AuthProviderSession.isAdmin st = false
   ∧ AuthProviderSession.isClient st = true
   ∧ AuthProviderSession.hasAccessToWorkspace st w = true
   ∧ ∃ m, m ∈ AuthProviderSession.memberships st
          ∧ Membership.workspace_id m = w
          ∧ (Membership.role m = "client_viewer"
             ∨ Membership.role m = "client_approver"))
  ∧ (AuthProviderSession.getClientWorkspaceId st = None
     ↔ AuthProviderSession.isAdmin st = true
       ∨ AuthProviderSession.isClient st = false).
Proof.
  split; [apply clientWorkspace_Some | apply clientWorkspace_None].
Qed.

Lemma getClientWorkspaceId_sound_witness :
  AuthProviderSession.getClientWorkspaceId approver_w1_session = Some "w1"
  ∧ AuthProviderSession.isAdmin approver_w1_session = false
  ∧ AuthProviderSession.isClient approver_w1_session = true
  ∧ AuthProviderSession.hasAccessToWorkspace approver_w1_session "w1" = true.
Proof.
  split; [reflexivity |].
  destruct (proj1 (getClientWorkspaceId_sound approver_w1_session "w1") eq_refl)
    as (H1 & H2 & H3 & _).
  auto.
Defined.

(** X3: an account that may approve and is not admin is a client, and
    [getClientWorkspaceId()] answers one of its workspaces. *)
Theorem approver_is_client (st : AuthProviderSession.state) :
  AuthProviderSession.canApprove st = true →
  AuthProviderSession.isAdmin st = false →
  AuthProviderSession.isClient st = true
  ∧ ∃ w, AuthProviderSession.getClientWorkspaceId st = Some w
         ∧ AuthProviderSession.hasAccessToWorkspace st w = true.
Proof.
  intros Hcan Hnot.
  apply canApprove_true in Hcan as [Hadmin | (m & Hin & Hrole)].
  { apply isAdmin_true in Hadmin. congruence. }
  assert (Hclient : AuthProviderSession.isClient st = true)
    by (apply some_client; eauto).
  split; [done |].
  destruct (AuthProviderSession.getClientWorkspaceId st) as [w |] eqn:Hw.
  - exists w. split; [done |]. by apply clientWorkspace_Some.
  - apply clientWorkspace_None in Hw as [Hw | Hw]; congruence.
Qed.

Lemma approver_is_client_witness :
  AuthProviderSession.canApprove approver_w1_session = true
  ∧ AuthProviderSession.isAdmin approver_w1_session = false
  ∧ AuthProviderSession.isClient approver_w1_session = true.
Proof.
  split; [reflexivity |]. split; [reflexivity |].
  exact (proj1 (approver_is_client approver_w1_session eq_refl eq_refl)).
Defined.

(** ** The session provider's [load] *)

Lemma load_fields sess pres mres st :
  AuthProviderSession.load true sess pres mres st
  = {| AuthProviderSession.session := sess;
       AuthProviderSession.user := sess ≫= Session.user;
       AuthProviderSession.profile :=
         match sess ≫= Session.user, error pres with
         | Some _, None => data pres
         | _, _ => None
         end;
       AuthProviderSession.memberships :=
         match sess ≫= Session.user, error mres with
         | Some _, None => data mres ?? []
         | _, _ => []
         end;
       AuthProviderSession.loading := false |}.
Proof.
  unfold AuthProviderSession.load. simpl.
  destruct (sess ≫= Session.user); [| reflexivity].
  destruct (error pres), (error mres); reflexivity.
Qed.

(** X4: a load that is still mounted overwrites every cell of the
    provider: its result does not depend on the state it started from
    (nothing of a previous identity survives), and loading the same
    answers again changes nothing. *)
Theorem load_overwrites_state (sess : option Session.t)
    (pres : response Profile.t) (mres : response (list Membership.t))
    (st1 st2 : AuthProviderSession.state) :
  AuthProviderSession.load true sess pres mres st1
  = AuthProviderSession.load true sess pres mres st2
  ∧ AuthProviderSession.load true sess pres mres
      (AuthProviderSession.load true sess pres mres st1)
    = AuthProviderSession.load true sess pres mres st1.
Proof. by rewrite !load_fields. Qed.

(** X5: a load that finds no signed-in user leaves the provider with no
    user, no profile, no memberships and [loading = false]; every
    capability check then answers false and there is no client
    workspace, whatever the state before. *)
Theorem load_signed_out_denies_all (sess : option Session.t)
    (pres : response Profile.t) (mres : response (list Membership.t))
    (st0 : AuthProviderSession.state) (w : string) :
  sess ≫= Session.user = None →
  let st := AuthProviderSession.load true sess pres mres st0 in
  AuthProviderSession.user st = None
  ∧ AuthProviderSession.profile st = None
  ∧ AuthProviderSession.memberships st = []
  ∧ AuthProviderSession.loading st = false
  ∧ AuthProviderSession.isAdmin st = false
  ∧ AuthProviderSession.isClient st = false
  ∧ AuthProviderSession.canApprove_at st w = false
  ∧ AuthProviderSession.hasAccessToWorkspace st w = false
  ∧ AuthProviderSession.getClientWorkspaceId st = None.
Proof.
  intros Hnone st. subst st. rewrite load_fields, Hnone. by repeat split.
Qed.

Lemma load_signed_out_denies_all_witness :
  (None : option Session.t) ≫= Session.user = None
  ∧ AuthProviderSession.profile
      (AuthProviderSession.load true None profile_answer_u1
         memberships_answer_u1 admin_with_viewer_row) = None
  ∧ AuthProviderSession.hasAccessToWorkspace
      (AuthProviderSession.load true None profile_answer_u1
         memberships_answer_u1 admin_with_viewer_row) "w1" = false.
Proof.
  split; [reflexivity |].
  destruct (load_signed_out_denies_all None profile_answer_u1
              memberships_answer_u1 admin_with_viewer_row "w1" eq_refl)
    as (_ & Hp & _ & _ & _ & _ & _ & Ha & _).
  split; [exact Hp | exact Ha].
Defined.

(** X6: when the membership query answers with an error, or with no
    rows, a signed-in account is left with no memberships: it is not a
    client, has no client workspace, and may approve or enter a
    workspace only as admin. *)
Theorem load_without_memberships (sess : option Session.t)
    (pres : response Profile.t) (mres : response (list Membership.t))
    (st0 : AuthProviderSession.state) (w : string) :
  is_Some (error mres) ∨ data mres = None →
  let st := AuthProviderSession.load true sess pres mres st0 in
  AuthProviderSession.memberships st = []
  ∧ AuthProviderSession.isClient st = false
  ∧ AuthProviderSession.getClientWorkspaceId st = None
  ∧ AuthProviderSession.canApprove_at st w = AuthProviderSession.isAdmin st
  ∧ AuthProviderSession.hasAccessToWorkspace st w = AuthProviderSession.isAdmin st.
Proof.
  intros Hmiss st.
  assert (Hm : AuthProviderSession.memberships st = []).
  { subst st. rewrite load_fields. simpl.
    destruct (sess ≫= Session.user); [| reflexivity].
    destruct Hmiss as [[e ->] | Hd]; [reflexivity |].
    destruct (error mres); [reflexivity | by rewrite Hd]. }
  unfold AuthProviderSession.canApprove_at, AuthProviderSession.canApprove,
    AuthProviderSession.hasAccessToWorkspace, AuthProviderSession.isClient,
    AuthProviderSession.getClientWorkspaceId.
  rewrite Hm. simpl. rewrite orb_false_r.
  split_and!; auto. by destruct (AuthProviderSession.isAdmin st).
Qed.

Lemma load_without_memberships_witness :
  (is_Some (error memberships_refused) ∨ data memberships_refused = None)
  ∧ let st := AuthProviderSession.load true session_u1 profile_answer_u1
                memberships_refused AuthProviderSession.initial in
    AuthProviderSession.memberships st = []
    ∧ AuthProviderSession.isClient st = false
    ∧ AuthProviderSession.getClientWorkspaceId st = None
    ∧ AuthProviderSession.canApprove_at st "w1" = AuthProviderSession.isAdmin st
    ∧ AuthProviderSession.hasAccessToWorkspace st "w1"
      = AuthProviderSession.isAdmin st.
Proof.
  assert (Hmiss : is_Some (error memberships_refused)
                  ∨ data memberships_refused = None) by (left; by eexists).
  split; [exact Hmiss |].
  exact (load_without_memberships session_u1 profile_answer_u1
           memberships_refused AuthProviderSession.initial "w1" Hmiss).
Defined.

Lemma globalRole_admin (st : AuthProviderSession.state) :
  AuthProviderSession.globalRole st = "admin"
  ↔ (AuthProviderSession.profile st ≫= Profile.role) = Some "admin".
Proof.
  unfold AuthProviderSession.globalRole.
  destruct (AuthProviderSession.profile st ≫= Profile.role) as [r |]; simpl.
  - split; congruence.
  - split; discriminate.
Qed.

(** X7: after a load in which a user is signed in and both queries
    answer without error, the provider holds exactly the answered
    profile and rows, and the capability checks are decided by them:
    access to a workspace iff the answered profile is admin or an
    answered row references it, approval iff admin or an answered row is
    [client_approver]. *)
Theorem load_completed_capabilities (sess : option Session.t)
    (pres : response Profile.t) (mres : response (list Membership.t))
    (st0 : AuthProviderSession.state) (u : AuthUser.t) (w : string) :
  sess ≫= Session.user = Some u →
  error pres = None →
  error mres = None →
  let st := AuthProviderSession.load true sess pres mres st0 in
  AuthProviderSession.user st = Some u
  ∧ AuthProviderSession.profile st = data pres
  ∧ AuthProviderSession.memberships st = data mres ?? []
  ∧ AuthProviderSession.loading st = false
  ∧ (AuthProviderSession.hasAccessToWorkspace st w = true
     ↔ (data pres ≫= Profile.role) = Some "admin"
       ∨ ∃ m, m ∈ data mres ?? [] ∧ Membership.workspace_id m = w)
  ∧ (AuthProviderSession.canApprove_at st w = true
     ↔ (data pres ≫= Profile.role) = Some "admin"
       ∨ ∃ m, m ∈ data mres ?? [] ∧ Membership.role m = "client_approver").
Proof.
  intros Hu Hp Hm st. subst st.
  unfold AuthProviderSession.canApprove_at.
  rewrite hasAccessToWorkspace_true, canApprove_true, globalRole_admin.
  rewrite load_fields, Hu, Hp, Hm. simpl. by repeat split.
Qed.

Lemma load_completed_capabilities_witness :
  let st := AuthProviderSession.load true session_u1 profile_answer_u1
              memberships_answer_u1 AuthProviderSession.initial in
  AuthProviderSession.memberships st = approver_w1_memberships
  ∧ (AuthProviderSession.hasAccessToWorkspace st "w1" = true
     ↔ (data profile_answer_u1 ≫= Profile.role) = Some "admin"
       ∨ ∃ m, m ∈ data memberships_answer_u1 ?? []
              ∧ Membership.workspace_id m = "w1").
Proof.
  destruct (load_completed_capabilities session_u1 profile_answer_u1
              memberships_answer_u1 AuthProviderSession.initial
              (AuthUser.mk "u1" (Some "approver@client.example")) "w1"
              eq_refl eq_refl eq_refl) as (_ & _ & Hm & _ & Ha & _).
  split; [exact Hm | exact Ha].
Defined.

(** ** The three loaders *)

(** X8: [loadForSession] of the provider copy and the mounted [load] of
    the session provider leave the same state, for every session, every
    pair of answers and every state before. *)
Theorem loadForSession_agrees_with_load (sess : option Session.t)
    (pres : response Profile.t) (mres : response (list Membership.t))
    (st : AuthProviderSession.state) :
  AuthProviderLoadForSession.loadForSession sess pres mres st
  = AuthProviderSession.load true sess pres mres st.
Proof.
  etrans; [| symmetry; apply load_fields].
  unfold AuthProviderLoadForSession.loadForSession.
  destruct (sess ≫= Session.user); simpl; [| reflexivity].
  destruct (error pres), (error mres); reflexivity.
Qed.

(** X9: the [load] of the provider that derives [userRole] does not look
    at the queries' errors. When it is not ignored and the store keeps
    its contract (an answer with an error carries no data), it leaves
    the same user, profile, memberships and loading flag as the session
    provider's [load], and both providers then agree on [isAdmin()]. *)
Theorem load_agrees_across_providers (sess : option Session.t)
    (pres : response Profile.t) (mres : response (list Membership.t))
    (st : AuthProviderSession.state) (st' : AuthProvider.state) :
  (is_Some (error pres) → data pres = None) →
  (is_Some (error mres) → data mres = None) →
  let a := AuthProviderLoad.load false false false (sess ≫= Session.user)
             pres mres st' in
  let b := AuthProviderSession.load true sess pres mres st in
  AuthProvider.user a = AuthProviderSession.user b
  ∧ AuthProvider.profile a = AuthProviderSession.profile b
  ∧ AuthProvider.memberships a = AuthProviderSession.memberships b
  ∧ AuthProvider.loading a = AuthProviderSession.loading b
  ∧ AuthProvider.isAdmin a = AuthProviderSession.isAdmin b.
Proof.
  intros Hp Hm a b.
  assert (Hfields : AuthProvider.user a = AuthProviderSession.user b
                    ∧ AuthProvider.profile a = AuthProviderSession.profile b
                    ∧ AuthProvider.memberships a = AuthProviderSession.memberships b
                    ∧ AuthProvider.loading a = AuthProviderSession.loading b).
  { subst a b. rewrite load_fields. unfold AuthProviderLoad.load. simpl.
    destruct (sess ≫= Session.user); simpl; [| done].
    destruct (error pres) as [e |]; destruct (error mres) as [e' |];
      try rewrite (Hp (mk_is_Some _ _ eq_refl));
      try rewrite (Hm (mk_is_Some _ _ eq_refl)); done. }
  destruct Hfields as (Hu & Hprof & Hmem & Hl).
  split_and!; try done.
  unfold AuthProvider.isAdmin, AuthProviderSession.isAdmin,
    AuthProvider.userRole, AuthProviderSession.globalRole.
  rewrite Hprof.
  destruct (AuthProviderSession.profile b ≫= Profile.role) as [r |]; simpl.
  - destruct (r === "admin") eqn:Hr; [done |].
    by repeat destruct (some _ _).
  - by repeat destruct (some _ _).
Qed.

Lemma load_agrees_across_providers_witness :
  let a := AuthProviderLoad.load false false false (session_u1 ≫= Session.user)
             profile_answer_u1 memberships_refused manager_and_approver in
  let b := AuthProviderSession.load true session_u1 profile_answer_u1
             memberships_refused AuthProviderSession.initial in
  (is_Some (error profile_answer_u1) → data profile_answer_u1 = None)
  ∧ (is_Some (error memberships_refused) → data memberships_refused = None)
  ∧ AuthProvider.memberships a = AuthProviderSession.memberships b
  ∧ AuthProvider.isAdmin a = AuthProviderSession.isAdmin b.
Proof.
  intros a b.
  assert (Hp : is_Some (error profile_answer_u1) → data profile_answer_u1 = None).
  { intros [e He]. discriminate He. }
  assert (Hm : is_Some (error memberships_refused)
               → data memberships_refused = None) by reflexivity.
  split; [exact Hp |]. split; [exact Hm |].
  destruct (load_agrees_across_providers session_u1 profile_answer_u1
              memberships_refused AuthProviderSession.initial
              manager_and_approver Hp Hm) as (_ & _ & Hmem & _ & Hadmin).
  split; [exact Hmem | exact Hadmin].
Defined.

(** ** The application's gate *)

(** X10: the gate shows the routes only to a signed-in user whose load
    is over. After a mounted load it never shows the spinner: it sends
    an absent user to the login route and shows the routes otherwise;
    before the first load, and after a load cut short by the unmount
    flag, it shows the spinner. *)
Theorem gate_after_load (sess : option Session.t)
    (pres : response Profile.t) (mres : response (list Membership.t))
    (st0 : AuthProviderSession.state) (loading : bool) (user : option AuthUser.t) :
  (App.AuthenticatedApp loading user = App.AppRoutes
   ↔ loading = false ∧ is_Some user)
  ∧ (let st := AuthProviderSession.load true sess pres mres st0 in
     App.AuthenticatedApp (AuthProviderSession.loading st)
                          (AuthProviderSession.user st)
     = match sess ≫= Session.user with
       | Some _ => App.AppRoutes
       | None => App.NavigateToLogin
       end)
  ∧ (let st := AuthProviderSession.load false sess pres mres st0 in
     App.AuthenticatedApp (AuthProviderSession.loading st)
                          (AuthProviderSession.user st) = App.Spinner)
  ∧ App.AuthenticatedApp (AuthProviderSession.loading AuthProviderSession.initial)
                         (AuthProviderSession.user AuthProviderSession.initial)
    = App.Spinner.
Proof.
  split_and!.
  - unfold App.AuthenticatedApp. destruct loading, user; simpl.
    + split; [discriminate | by intros [? _]].
    + split; [discriminate | by intros [? _]].
    + split; [eauto | done].
    + split; [discriminate | intros [_ [u Hu]]; discriminate].
  - simpl. rewrite load_fields. simpl. by destruct (sess ≫= Session.user).
  - reflexivity.
  - reflexivity.
Qed.

(** ** The provider that derives [userRole] *)

Lemma userRole_admin (st : AuthProvider.state) :
  AuthProvider.isAdmin st = true
  ↔ (AuthProvider.profile st ≫= Profile.role) = Some "admin".
Proof.
  unfold AuthProvider.isAdmin.
  destruct (userRole_cases st) as
    [(Ha & ->) | [(Ha & Hm & ->) | [(Ha & Hm & Hp & ->)
    | [(Ha & Hm & Hp & Hv & ->) | (Ha & Hm & Hp & Hv & ->)]]]];
    (split; [intros Hr; try discriminate Hr | intros Hr]);
    try (by apply opt_eq_true); try reflexivity;
    apply opt_eq_true in Hr; congruence.
Qed.

Lemma isAccountManager_true (st : AuthProvider.state) :
  AuthProvider.isAccountManager st = true
  ↔ (AuthProvider.profile st ≫= Profile.role) = Some "admin"
    ∨ ∃ m, m ∈ AuthProvider.memberships st
           ∧ Membership.role m = "account_manager".
Proof.
  unfold AuthProvider.isAccountManager.
  destruct (userRole_cases st) as
    [(Ha & ->) | [(Ha & Hm & ->) | [(Ha & Hm & Hp & ->)
    | [(Ha & Hm & Hp & Hv & ->) | (Ha & Hm & Hp & Hv & ->)]]]]; simpl.
  - apply opt_eq_true in Ha. split; auto.
  - apply some_role in Hm. split; auto.
  - split; [done |]. intros [He | Hex].
    + apply opt_eq_true in He. congruence.
    + apply some_role in Hex. congruence.
  - split; [done |]. intros [He | Hex].
    + apply opt_eq_true in He. congruence.
    + apply some_role in Hex. congruence.
  - split; [done |]. intros [He | Hex].
    + apply opt_eq_true in He. congruence.
    + apply some_role in Hex. congruence.
Qed.

(** X11: [isAccountManager()] is true iff the profile role is admin or
    some membership has role [account_manager]; an admin is an account
    manager and may approve. *)
Theorem isAccountManager_iff (st : AuthProvider.state) :
  (AuthProvider.isAccountManager st = true
   ↔ (AuthProvider.profile st ≫= Profile.role) = Some "admin"
     ∨ ∃ m, m ∈ AuthProvider.memberships st
            ∧ Membership.role m = "account_manager")
  ∧ (AuthProvider.isAdmin st = true
     ↔ (AuthProvider.profile st ≫= Profile.role) = Some "admin")
  ∧ (AuthProvider.isAdmin st = true →
     AuthProvider.isAccountManager st = true ∧ AuthProvider.canApprove st = true).
Proof.
  split; [apply isAccountManager_true |]. split; [apply userRole_admin |].
  intros Hadmin%userRole_admin. split.
  - apply isAccountManager_true. by left.
  - apply canApprove_true'. by left.
Qed.

Lemma isAccountManager_iff_witness :
  let st := {| AuthProvider.user := None;
               AuthProvider.profile := Some (Profile.mk "u0" None (Some "admin"));
               AuthProvider.memberships := [];
               AuthProvider.loading := false |} in
  AuthProvider.isAdmin st = true
  ∧ AuthProvider.isAccountManager st = true
  ∧ AuthProvider.canApprove st = true.
Proof.
  intros st. split; [reflexivity |].
  exact (proj2 (proj2 (isAccountManager_iff st)) eq_refl).
Defined.

(** X12: the coarse roles exclude one another. [userRole] is one of five
    values, so no account is both a client and an account manager, an
    admin is never a client, and whoever may approve is an admin or a
    client. *)
Theorem userRole_exclusive (st : AuthProvider.state) :
  AuthProvider.userRole st ∈ ["admin"; "account_manager"; "client_approver";
                              "client_viewer"; "viewer"]
  ∧ AuthProvider.isClient st && AuthProvider.isAccountManager st = false
  ∧ AuthProvider.isClient st && AuthProvider.isAdmin st = false
  ∧ AuthProvider.canApprove st
    = AuthProvider.isAdmin st
      || (AuthProvider.isClient st
          && some (λ m, Membership.role m === "client_approver")
                  (AuthProvider.memberships st)).
Proof.
  unfold AuthProvider.isClient, AuthProvider.isAccountManager,
    AuthProvider.isAdmin, AuthProvider.canApprove.
  destruct (userRole_cases st) as
    [(Ha & ->) | [(Ha & Hm & ->) | [(Ha & Hm & Hp & ->)
    | [(Ha & Hm & Hp & Hv & ->) | (Ha & Hm & Hp & Hv & ->)]]]];
    simpl in *; try rewrite Hp; (split_and!; [set_solver | done ..]).
Qed.

(** X13: on the same profile and rows the two providers agree on
    [isAdmin()], and the provider that derives [userRole] is the
    stricter one: where its [canApprove()] or [isClient()] answers true
    so does the session provider's. They agree on [canApprove()] when no
    row is [account_manager], and on [isClient()] when, besides, the
    account is not admin. *)
Theorem providers_compared (st : AuthProviderSession.state)
    (st' : AuthProvider.state) :
  AuthProvider.profile st' = AuthProviderSession.profile st →
  AuthProvider.memberships st' = AuthProviderSession.memberships st →
  AuthProvider.isAdmin st' = AuthProviderSession.isAdmin st
  ∧ (AuthProvider.canApprove st' = true → AuthProviderSession.canApprove st = true)
  ∧ (AuthProvider.isClient st' = true → AuthProviderSession.isClient st = true)
  ∧ ((∀ m, m ∈ AuthProviderSession.memberships st
           → Membership.role m ≠ "account_manager") →
     AuthProvider.canApprove st' = AuthProviderSession.canApprove st
     ∧ (AuthProviderSession.isAdmin st = false →
        AuthProvider.isClient st' = AuthProviderSession.isClient st)).
Proof.
  intros Hprof Hmem.
  assert (Hadmin : AuthProvider.isAdmin st' = AuthProviderSession.isAdmin st).
  { apply eq_iff_eq_true.
    by rewrite userRole_admin, isAdmin_true, globalRole_admin, Hprof. }
  split; [exact Hadmin |]. split_and!.
  - rewrite canApprove_true', canApprove_true, globalRole_admin, Hprof, Hmem.
    intros [? | (_ & ?)]; auto.
  - unfold AuthProviderSession.isClient.
    rewrite isClient_true', some_client, Hmem. by intros (_ & _ & ?).
  - intros Hno. split.
    + apply eq_iff_eq_true.
      rewrite canApprove_true', canApprove_true, globalRole_admin, Hprof, Hmem.
      split; (intros [? | ?]; [by left | right]); tauto.
    + intros Hnot. apply eq_iff_eq_true.
      unfold AuthProviderSession.isClient.
      rewrite isClient_true', some_client, Hprof, Hmem.
      rewrite isAdmin_false_iff, globalRole_admin in Hnot. tauto.
Qed.

Lemma providers_compared_witness :
  AuthProvider.profile manager_and_approver
  = AuthProviderSession.profile manager_and_approver_session
  ∧ AuthProvider.memberships manager_and_approver
    = AuthProviderSession.memberships manager_and_approver_session
  ∧ AuthProvider.isAdmin manager_and_approver
    = AuthProviderSession.isAdmin manager_and_approver_session
  ∧ AuthProvider.canApprove manager_and_approver = false
  ∧ AuthProviderSession.canApprove manager_and_approver_session = true.
Proof.
  split; [reflexivity |]. split; [reflexivity |].
  split; [| split; reflexivity].
  exact (proj1 (providers_compared manager_and_approver_session
                  manager_and_approver eq_refl eq_refl)).
Defined.

(** ** The calendar's selectors, row by row *)

Lemma elem_of_array_filter {A} (f : A → bool) (l : list A) (x : A) :
  x ∈ Calendar.array_filter f l ↔ x ∈ l ∧ f x = true.
Proof.
  unfold Calendar.array_filter. by rewrite !list_elem_of_In, filter_In.
Qed.

Lemma array_filter_and {A} (f g : A → bool) (l : list A) :
  Calendar.array_filter g (Calendar.array_filter f l)
  = Calendar.array_filter (λ x, f x && g x) l.
Proof.
  induction l as [| x l IH]; simpl; [reflexivity |].
  destruct (f x) eqn:Hf; simpl.
  - destruct (g x); by rewrite IH.
  - exact IH.
Qed.

Lemma array_filter_ext {A} (f g : A → bool) (l : list A) :
  (∀ x, x ∈ l → f x = g x) →
  Calendar.array_filter f l = Calendar.array_filter g l.
Proof.
  intros Hfg. unfold Calendar.array_filter. apply filter_ext_in.
  intros x Hx. by apply Hfg, list_elem_of_In.
Qed.

Lemma array_filter_true {A} (l : list A) :
  Calendar.array_filter (λ _, true) l = l.
Proof. induction l as [| x l IH]; simpl; by rewrite ?IH. Qed.

Lemma selector_as_filter {A} (b : bool) (f : A → bool) (l : list A) :
  (if b then Calendar.array_filter f l else l)
  = Calendar.array_filter (λ x, if b then f x else true) l.
Proof. destruct b; [reflexivity | by rewrite array_filter_true]. Qed.

Lemma has_new_Set (ids : list string) (x : string) :
  Calendar.has (Calendar.new_Set ids) x = true ↔ x ∈ ids.
Proof.
  unfold Calendar.has, Calendar.new_Set.
  by rewrite bool_decide_eq_true, elem_of_list_to_set.
Qed.

Lemma has_account_ids (accs : list SocialAccount.t) (s : string) :
  Calendar.has (Calendar.new_Set (map SocialAccount.id accs)) s = true
  ↔ ∃ a, a ∈ accs ∧ SocialAccount.id a = s.
Proof.
  rewrite has_new_Set. split.
  - intros Hin. apply list_elem_of_In, in_map_iff in Hin as (a & Ha & Hin).
    exists a. split; [by apply list_elem_of_In | done].
  - intros (a & Hin & <-). apply list_elem_of_In, in_map. by apply list_elem_of_In.
Qed.

Lemma calendar_posts_as_filter allPosts accs w p a :
  Calendar.posts allPosts accs w p a
  = Calendar.array_filter (calendar_keeps accs w p a) allPosts.
Proof.
  unfold Calendar.posts, calendar_keeps.
  rewrite !selector_as_filter, !array_filter_and.
  apply array_filter_ext. intros x _. by rewrite !andb_assoc.
Qed.

Lemma negb_all (s : string) (b : bool) :
  (if negb (s === "all") then b else true) = true ↔ s = "all" ∨ b = true.
Proof.
  destruct (s === "all") eqn:Hs; simpl.
  - apply str_eq_true in Hs. tauto.
  - apply str_eq_false in Hs. split; [auto | by intros [? | ?]].
Qed.

Lemma account_known (accs : list SocialAccount.t) (v : option string) :
  (if truthy v
   then Calendar.has (Calendar.new_Set (map SocialAccount.id accs)) (v ?? "")
   else true) = true
  ↔ ∀ s, v = Some s → s ≠ "" → ∃ a, a ∈ accs ∧ SocialAccount.id a = s.
Proof.
  destruct v as [s |]; simpl.
  - destruct (truthy_str s) eqn:Ht.
    + rewrite has_account_ids. apply truthy_str_true in Ht. split.
      * by intros Hex s' [= <-] _.
      * intros Hall. by apply Hall.
    + apply truthy_str_false in Ht. split; [| done].
      intros _ s' [= <-] Hne. done.
  - split; [| done]. intros _ s' Hs. discriminate.
Qed.

Lemma calendar_keeps_true accs w p a (q : Post.t) :
  calendar_keeps accs w p a q = true
  ↔ (∀ s, Post.social_account_id q = Some s → s ≠ ""
          → ∃ acc, acc ∈ accs ∧ SocialAccount.id acc = s)
    ∧ (w = "all" ∨ Post.workspace_id q = w)
    ∧ (p = "all" ∨ Post.platform q = Some p)
    ∧ (a = "all" ∨ Post.social_account_id q = Some a).
Proof.
  unfold calendar_keeps.
  rewrite !andb_true_iff, account_known, !negb_all, str_eq_true, !opt_eq_true.
  tauto.
Qed.

Lemma calendar_filteredAccounts_iff_aux (allAccounts : list SocialAccount.t)
    (w p : string) (a : SocialAccount.t) :
  a ∈ Calendar.filteredAccounts allAccounts w p
  ↔ a ∈ allAccounts
    ∧ (w = "all" ∨ SocialAccount.workspace_id a = w)
    ∧ (p = "all" ∨ SocialAccount.platform a = Some p).
Proof.
  unfold Calendar.filteredAccounts.
  rewrite !selector_as_filter, !elem_of_array_filter, !negb_all.
  rewrite str_eq_true, opt_eq_true. tauto.
Qed.

(** X14: a post is shown on the calendar iff it was loaded, its account
    (when it names one) is among the offered accounts, and it matches
    the workspace, platform and account selectors; a post that names no
    account passes the account test of the first filter. *)
Theorem calendar_posts_iff (allPosts : list Post.t)
    (allAccounts : list SocialAccount.t)
    (selectedWorkspace selectedPlatform selectedAccount : string) (q : Post.t) :
  q ∈ Calendar.visible allPosts allAccounts
        selectedWorkspace selectedPlatform selectedAccount
  ↔ q ∈ allPosts
    ∧ (∀ s, Post.social_account_id q = Some s → s ≠ "" →
         ∃ acc, acc ∈ allAccounts ∧ SocialAccount.id acc = s
                ∧ (selectedWorkspace = "all"
                   ∨ SocialAccount.workspace_id acc = selectedWorkspace)
                ∧ (selectedPlatform = "all"
                   ∨ SocialAccount.platform acc = Some selectedPlatform))
    ∧ (selectedWorkspace = "all" ∨ Post.workspace_id q = selectedWorkspace)
    ∧ (selectedPlatform = "all" ∨ Post.platform q = Some selectedPlatform)
    ∧ (selectedAccount = "all" ∨ Post.social_account_id q = Some selectedAccount).
Proof.
  unfold Calendar.visible.
  rewrite calendar_posts_as_filter, elem_of_array_filter, calendar_keeps_true.
  assert (Hacc :
    (∀ s, Post.social_account_id q = Some s → s ≠ "" →
       ∃ acc, acc ∈ Calendar.filteredAccounts allAccounts
                      selectedWorkspace selectedPlatform
              ∧ SocialAccount.id acc = s)
    ↔ (∀ s, Post.social_account_id q = Some s → s ≠ "" →
         ∃ acc, acc ∈ allAccounts ∧ SocialAccount.id acc = s
                ∧ (selectedWorkspace = "all"
                   ∨ SocialAccount.workspace_id acc = selectedWorkspace)
                ∧ (selectedPlatform = "all"
                   ∨ SocialAccount.platform acc = Some selectedPlatform))).
  { split; intros H s Hs Hne; destruct (H s Hs Hne) as (acc & Hacc);
      exists acc.
    - destruct Hacc as [Hin Hid].
      apply calendar_filteredAccounts_iff_aux in Hin. tauto.
    - destruct Hacc as (Hin & Hid & Hw & Hp). split; [| done].
      apply calendar_filteredAccounts_iff_aux. tauto. }
  rewrite Hacc. tauto.
Qed.

(** X15: when the account selector names an account that is not among
    the offered accounts (a selection left over from another workspace
    or platform), the calendar shows no post at all. *)
Theorem calendar_stale_account_shows_nothing (allPosts : list Post.t)
    (allAccounts : list SocialAccount.t)
    (selectedWorkspace selectedPlatform selectedAccount : string) :
  selectedAccount ≠ "all" →
  selectedAccount ≠ "" →
  (∀ acc, acc ∈ Calendar.filteredAccounts allAccounts
                  selectedWorkspace selectedPlatform
          → SocialAccount.id acc ≠ selectedAccount) →
  Calendar.visible allPosts allAccounts
    selectedWorkspace selectedPlatform selectedAccount = [].
Proof.
  intros Hall Hne Hstale. unfold Calendar.visible.
  rewrite calendar_posts_as_filter.
  apply elem_of_nil_inv. intros q [Hin Hkeep]%elem_of_array_filter.
  apply calendar_keeps_true in Hkeep as (Hacc & _ & _ & [? | Hsel]); [done |].
  destruct (Hacc _ Hsel Hne) as (acc & Hoffered & Hid).
  by apply (Hstale acc).
Qed.

Lemma calendar_stale_account_shows_nothing_witness :
  "a1" ≠ "all" ∧ "a1" ≠ ""
  ∧ Calendar.visible [post_of_a1; post_p1] [account_a1] "w2" "all" "a1" = [].
Proof.
  split; [discriminate |]. split; [discriminate |].
  apply calendar_stale_account_shows_nothing; [discriminate | discriminate |].
  intros acc Hacc. by apply elem_of_nil in Hacc.
Defined.

(** X16: applying the selectors to what they already show changes
    nothing. *)
Theorem calendar_posts_idempotent (allPosts : list Post.t)
    (allAccounts : list SocialAccount.t)
    (selectedWorkspace selectedPlatform selectedAccount : string) :
  Calendar.visible
    (Calendar.visible allPosts allAccounts
       selectedWorkspace selectedPlatform selectedAccount)
    allAccounts selectedWorkspace selectedPlatform selectedAccount
  = Calendar.visible allPosts allAccounts
      selectedWorkspace selectedPlatform selectedAccount.
Proof.
  unfold Calendar.visible.
  rewrite !calendar_posts_as_filter, array_filter_and.
  apply array_filter_ext. intros q _. apply andb_diag.
Qed.

(** X17: with every selector at ["all"], a post is hidden only when it
    names an account that was not loaded: if every account named by a
    loaded post was loaded, the calendar shows exactly the loaded posts,
    in their order. *)
Theorem calendar_all_shows_everything (allPosts : list Post.t)
    (allAccounts : list SocialAccount.t) :
  (∀ q s, q ∈ allPosts → Post.social_account_id q = Some s → s ≠ ""
          → ∃ acc, acc ∈ allAccounts ∧ SocialAccount.id acc = s) →
  Calendar.visible allPosts allAccounts "all" "all" "all" = allPosts.
Proof.
  intros Hknown. unfold Calendar.visible.
  rewrite calendar_posts_as_filter.
  rewrite <- (array_filter_true allPosts) at 2.
  apply array_filter_ext. intros q Hq.
  apply calendar_keeps_true. split_and!; auto.
  intros s Hs Hne. by apply (Hknown q).
Qed.

Lemma calendar_all_shows_everything_witness :
  Calendar.visible [post_of_a1; post_p1] [account_a1] "all" "all" "all"
  = [post_of_a1; post_p1].
Proof.
  apply calendar_all_shows_everything.
  intros q s Hq Hs Hne.
  apply list_elem_of_In in Hq. destruct Hq as [<- | [<- | []]].
  - injection Hs as <-. exists account_a1. split; [by left | reflexivity].
  - discriminate Hs.
Defined.

(** ** The feed preview *)

Section FeedSort.
Import FeedPreview.

Lemma sort_insert_Permutation {A} (compare : A → A → Z) (x : A) (l : list A) :
  sort_insert compare x l ≡ₚ x :: l.
Proof.
  induction l as [| y l IH]; simpl; [done |].
  destruct (compare x y <=? 0)%Z; [done |].
  rewrite IH. apply Permutation_swap.
Qed.

Lemma array_sort_Permutation {A} (compare : A → A → Z) (l : list A) :
  array_sort compare l ≡ₚ l.
Proof.
  induction l as [| x l IH]; simpl; [done |].
  by rewrite sort_insert_Permutation, IH.
Qed.

Lemma by_order_index_le (a b : FeedPost.t) :
  (by_order_index a b <=? 0)%Z = true ↔ by_order a b.
Proof. unfold by_order_index, by_order. rewrite Z.leb_le. lia. Qed.

Lemma sort_insert_sorted (x : FeedPost.t) (l : list FeedPost.t) :
  StronglySorted by_order l →
  StronglySorted by_order (sort_insert by_order_index x l).
Proof.
  induction 1 as [| y l Hl IH Hy]; simpl.
  - repeat constructor.
  - destruct (by_order_index x y <=? 0)%Z eqn:Hc.
    + apply by_order_index_le in Hc. constructor; [by constructor |].
      constructor; [done |].
      eapply Forall_impl; [exact Hy |]. unfold by_order in *. intros z. lia.
    + assert (Hyx : by_order y x).
      { apply not_true_iff_false in Hc. rewrite by_order_index_le in Hc.
        unfold by_order in *. lia. }
      constructor; [done |].
      rewrite sort_insert_Permutation. by constructor.
Qed.

Lemma array_sort_sorted (l : list FeedPost.t) :
  StronglySorted by_order (array_sort by_order_index l).
Proof.
  induction l as [| x l IH]; simpl; [constructor |].
  by apply sort_insert_sorted.
Qed.

(** The sort is stable: it moves no row past a row of the same order. *)
Lemma sort_insert_stable (k : Z) (x : FeedPost.t) (l : list FeedPost.t) :
  Calendar.array_filter (λ p, (order_or_zero p =? k)%Z)
    (sort_insert by_order_index x l)
  = Calendar.array_filter (λ p, (order_or_zero p =? k)%Z) (x :: l).
Proof.
  induction l as [| y l IH]; [reflexivity |].
  simpl sort_insert.
  destruct (by_order_index x y <=? 0)%Z eqn:Hc; [reflexivity |].
  apply not_true_iff_false in Hc. rewrite by_order_index_le in Hc.
  unfold by_order in Hc.
  change (Calendar.array_filter ?f (y :: ?t))
    with (if f y then y :: Calendar.array_filter f t
          else Calendar.array_filter f t).
  rewrite IH. simpl.
  destruct (order_or_zero x =? k)%Z eqn:Hx;
    destruct (order_or_zero y =? k)%Z eqn:Hy; try reflexivity.
  apply Z.eqb_eq in Hx, Hy. lia.
Qed.

Lemma array_sort_stable (k : Z) (l : list FeedPost.t) :
  Calendar.array_filter (λ p, (order_or_zero p =? k)%Z)
    (array_sort by_order_index l)
  = Calendar.array_filter (λ p, (order_or_zero p =? k)%Z) l.
Proof.
  induction l as [| x l IH]; [reflexivity |].
  simpl array_sort. rewrite sort_insert_stable. simpl. by rewrite IH.
Qed.

Lemma array_sort_sorted_id (l : list FeedPost.t) :
  StronglySorted by_order l → array_sort by_order_index l = l.
Proof.
  induction 1 as [| x l Hl IH Hx]; [reflexivity |].
  simpl. rewrite IH. destruct l as [| y l]; [reflexivity |].
  simpl. apply Forall_cons in Hx as [Hxy _].
  apply by_order_index_le in Hxy. by rewrite Hxy.
Qed.

Lemma feed_posts_as_sort allPosts w a accs :
  posts allPosts w a accs
  = array_sort by_order_index
      (Calendar.array_filter (feed_keeps w a accs) allPosts).
Proof.
  unfold posts, feed_keeps. f_equal.
  rewrite selector_as_filter.
  destruct (negb (a === "all")); rewrite !array_filter_and;
    apply array_filter_ext; intros x _; by rewrite andb_assoc.
Qed.

End FeedSort.

Lemma array_filter_sorted {A} (R : relation A) (f : A → bool) (l : list A) :
  StronglySorted R l → StronglySorted R (Calendar.array_filter f l).
Proof.
  induction 1 as [| x l Hl IH Hx]; simpl; [constructor |].
  destruct (f x); [| exact IH]. constructor; [exact IH |].
  apply Forall_forall. intros y [Hy _]%elem_of_array_filter.
  by apply (proj1 (Forall_forall _ _) Hx).
Qed.

Lemma feed_keeps_true w a accs (q : FeedPost.t) :
  feed_keeps w a accs q = true
  ↔ FeedPost.status q ≠ "posted"
    ∧ (w = "all" ∨ FeedPost.workspace_id q = w)
    ∧ (a ≠ "all" → FeedPost.social_account_id q = Some a)
    ∧ (a = "all" →
       ∃ s acc, FeedPost.social_account_id q = Some s ∧ s ≠ ""
                ∧ acc ∈ accs ∧ SocialAccount.id acc = s).
Proof.
  unfold feed_keeps.
  rewrite !andb_true_iff, negb_true_iff, str_eq_false, negb_all, str_eq_true.
  destruct (a === "all") eqn:Ha; simpl.
  - apply str_eq_true in Ha.
    destruct (FeedPost.social_account_id q) as [s |]; simpl.
    + destruct (truthy_str s) eqn:Hs.
      * apply truthy_str_true in Hs. rewrite has_account_ids. split.
        -- intros ((? & ?) & acc & ? & ?). split_and!; eauto 10. done.
        -- intros (? & ? & _ & Hex).
           destruct (Hex Ha) as (s' & acc & [= <-] & _ & ? & ?). eauto.
      * apply truthy_str_false in Hs. split; [by intros (_ & ?) |].
        intros (_ & _ & _ & Hex).
        destruct (Hex Ha) as (s' & acc & [= <-] & ? & _). done.
    + split; [by intros (_ & ?) |]. intros (_ & _ & _ & Hex).
      destruct (Hex Ha) as (s' & acc & ? & _). done.
  - apply str_eq_false in Ha. rewrite opt_eq_true. split.
    + intros ((? & ?) & ?). split_and!; auto. done.
    + intros (? & ? & Hsel & _). auto.
Qed.

Lemma feed_filteredAccounts_iff (allAccounts : list SocialAccount.t)
    (w p : string) (a : SocialAccount.t) :
  a ∈ FeedPreview.filteredAccounts allAccounts w p
  ↔ a ∈ allAccounts
    ∧ (w = "all" ∨ SocialAccount.workspace_id a = w)
    ∧ SocialAccount.platform a = Some p.
Proof.
  unfold FeedPreview.filteredAccounts.
  rewrite selector_as_filter, !elem_of_array_filter, negb_all.
  rewrite str_eq_true, opt_eq_true. tauto.
Qed.

(** X18: the feed preview's posts are the rows its filters keep, sorted
    by [order_index || 0]: every earlier row has an order not above that
    of every later row, the result is a rearrangement of the kept rows,
    and rows of equal order stay in their loaded order (the sort is
    stable). *)
Theorem feed_posts_sorted_stable (allPosts : list FeedPost.t)
    (selectedWorkspace selectedAccount : string)
    (filteredAccounts : list SocialAccount.t) (k : Z) :
  let kept := Calendar.array_filter
                (feed_keeps selectedWorkspace selectedAccount filteredAccounts)
                allPosts in
  let out := FeedPreview.posts allPosts selectedWorkspace selectedAccount
               filteredAccounts in
  StronglySorted
    (λ a b, (FeedPreview.order_or_zero a ≤ FeedPreview.order_or_zero b)%Z) out
  ∧ out ≡ₚ kept
  ∧ Calendar.array_filter (λ p, (FeedPreview.order_or_zero p =? k)%Z) out
    = Calendar.array_filter (λ p, (FeedPreview.order_or_zero p =? k)%Z) kept.
Proof.
  intros kept out. subst out kept. rewrite feed_posts_as_sort.
  split; [apply array_sort_sorted |].
  split; [apply array_sort_Permutation | apply array_sort_stable].
Qed.

(** X19: a post is shown in the feed preview iff it was loaded, is not
    [posted], matches the workspace selector, and either is the post of
    the selected account or, with the account selector at ["all"], names
    a loaded account of the selected workspace and platform. So a posted
    post, and with ["all"] a post that names no account, is never
    shown. *)
Theorem feed_posts_iff (allPosts : list FeedPost.t)
    (allAccounts : list SocialAccount.t)
    (selectedWorkspace selectedPlatform selectedAccount : string)
    (q : FeedPost.t) :
  q ∈ FeedPreview.posts allPosts selectedWorkspace selectedAccount
        (FeedPreview.filteredAccounts allAccounts
           selectedWorkspace selectedPlatform)
  ↔ q ∈ allPosts
    ∧ FeedPost.status q ≠ "posted"
    ∧ (selectedWorkspace = "all" ∨ FeedPost.workspace_id q = selectedWorkspace)
    ∧ (selectedAccount ≠ "all"
       → FeedPost.social_account_id q = Some selectedAccount)
    ∧ (selectedAccount = "all" →
       ∃ s acc, FeedPost.social_account_id q = Some s ∧ s ≠ ""
                ∧ acc ∈ allAccounts ∧ SocialAccount.id acc = s
                ∧ (selectedWorkspace = "all"
                   ∨ SocialAccount.workspace_id acc = selectedWorkspace)
                ∧ SocialAccount.platform acc = Some selectedPlatform).
Proof.
  rewrite feed_posts_as_sort, array_sort_Permutation.
  rewrite elem_of_array_filter, feed_keeps_true.
  split.
  - intros (Hin & Hst & Hw & Hsel & Hall). split_and!; auto.
    intros Ha. destruct (Hall Ha) as (s & acc & Hs & Hne & Hacc & Hid).
    apply feed_filteredAccounts_iff in Hacc as (? & ? & ?). eauto 10.
  - intros (Hin & Hst & Hw & Hsel & Hall). split_and!; auto.
    intros Ha.
    destruct (Hall Ha) as (s & acc & Hs & Hne & Hacc & Hid & Hws & Hpl).
    exists s, acc. split_and!; auto. by apply feed_filteredAccounts_iff.
Qed.

(** X20: when the loaded posts come in the order the feed preview sorts
    by, the sort moves nothing: the posts shown are the kept rows in
    their loaded order, a subsequence of the loaded posts. *)
Theorem feed_posts_keep_loaded_order (allPosts : list FeedPost.t)
    (selectedWorkspace selectedAccount : string)
    (filteredAccounts : list SocialAccount.t) :
  StronglySorted
    (λ a b, (FeedPreview.order_or_zero a ≤ FeedPreview.order_or_zero b)%Z)
    allPosts →
  FeedPreview.posts allPosts selectedWorkspace selectedAccount filteredAccounts
  = Calendar.array_filter
      (feed_keeps selectedWorkspace selectedAccount filteredAccounts) allPosts
  ∧ FeedPreview.posts allPosts selectedWorkspace selectedAccount filteredAccounts
    `sublist_of` allPosts.
Proof.
  intros Hsorted. rewrite feed_posts_as_sort.
  rewrite array_sort_sorted_id by by apply array_filter_sorted.
  split; [reflexivity | apply array_filter_sublist].
Qed.

Lemma feed_posts_keep_loaded_order_witness :
  StronglySorted
    (λ a b, (FeedPreview.order_or_zero a ≤ FeedPreview.order_or_zero b)%Z)
    feed_rows_by_order
  ∧ FeedPreview.posts feed_rows_by_order "all" "all" [account_a1]
    = [feed_post "f3" (Some "a1") "scheduled" None;
       feed_post "f1" (Some "a1") "scheduled" (Some 2%Z);
       feed_post "f2" (Some "a1") "draft" (Some 2%Z)].
Proof.
  assert (Hs : StronglySorted
                 (λ a b, (FeedPreview.order_or_zero a
                          ≤ FeedPreview.order_or_zero b)%Z)
                 feed_rows_by_order).
  { unfold feed_rows_by_order.
    repeat first [apply SSorted_nil | apply SSorted_cons
                 | apply Forall_nil_2 | apply Forall_cons_2];
      unfold FeedPreview.order_or_zero; simpl; lia. }
  split; [exact Hs |].
  exact (proj1 (feed_posts_keep_loaded_order feed_rows_by_order "all" "all"
                  [account_a1] Hs)).
Defined.

(** ** The team page *)

Lemma managed_workspace_iff (members : list Membership.t) (userId w : string) :
  Calendar.has
    (Calendar.new_Set
       (map Membership.workspace_id
          (Calendar.array_filter
             (λ m, (Membership.user_id m === userId)
                   && (Membership.role m === "account_manager"))
             members))) w = true
  ↔ ∃ m, m ∈ members ∧ Membership.user_id m = userId
         ∧ Membership.role m = "account_manager"
         ∧ Membership.workspace_id m = w.
Proof.
  rewrite has_new_Set. split.
  - intros Hin. apply list_elem_of_In, in_map_iff in Hin as (m & Hw & Hin).
    apply list_elem_of_In, elem_of_array_filter in Hin as [Hin Hm].
    apply andb_true_iff in Hm as [Hu Hr]. apply str_eq_true in Hu, Hr. eauto.
  - intros (m & Hin & Hu & Hr & <-). apply list_elem_of_In, in_map.
    apply list_elem_of_In, elem_of_array_filter. split; [done |].
    apply andb_true_iff. by rewrite !str_eq_true.
Qed.

Lemma accountManager_iff (members : list Membership.t) (userId : string) :
  userId ∈ Team.accountManagerUserIds members
  ↔ ∃ m, m ∈ members ∧ Membership.user_id m = userId
         ∧ Membership.role m = "account_manager".
Proof.
  unfold Team.accountManagerUserIds, Calendar.new_Set.
  rewrite elem_of_list_to_set. split.
  - intros Hin. apply list_elem_of_In, in_map_iff in Hin as (m & Hu & Hin).
    apply list_elem_of_In, elem_of_array_filter in Hin as [Hin Hr].
    apply str_eq_true in Hr. eauto.
  - intros (m & Hin & <- & Hr). apply list_elem_of_In, in_map.
    apply list_elem_of_In, elem_of_array_filter. split; [done |].
    by apply str_eq_true.
Qed.

Lemma remove_dups_length_le (l : list string) :
  (List.length (remove_dups l) ≤ List.length l)%nat.
Proof.
  induction l as [| x l IH]; simpl; [lia |].
  destruct (decide_rel elem_of x l); simpl; lia.
Qed.

(** The size of a [Set] built from a list is the number of distinct
    elements of the list. *)
Lemma new_Set_size (l : list string) :
  size (Calendar.new_Set l) = List.length (remove_dups l).
Proof.
  unfold Calendar.new_Set.
  replace (list_to_set l : gset string)
    with (list_to_set (remove_dups l) : gset string).
  - apply size_list_to_set, NoDup_remove_dups.
  - apply set_eq. intros x.
    by rewrite !elem_of_list_to_set, elem_of_remove_dups.
Qed.

(** X21: a user carries the Account Manager badge iff some membership
    row gives that user the role [account_manager]; the count on the
    page counts users, not rows, and is at most the number of rows. *)
Theorem accountManagerUserIds_iff (members : list Membership.t) (userId : string) :
  (userId ∈ Team.accountManagerUserIds members
   ↔ ∃ m, m ∈ members ∧ Membership.user_id m = userId
          ∧ Membership.role m = "account_manager")
  ∧ size (Team.accountManagerUserIds members)
    = List.length (remove_dups
                (map Membership.user_id
                   (Calendar.array_filter
                      (λ m, Membership.role m === "account_manager") members)))
  ∧ (size (Team.accountManagerUserIds members) ≤ List.length members)%nat.
Proof.
  split; [apply accountManager_iff |].
  assert (Hsize : size (Team.accountManagerUserIds members)
                  = List.length (remove_dups
                      (map Membership.user_id
                         (Calendar.array_filter
                            (λ m, Membership.role m === "account_manager")
                            members)))).
  { unfold Team.accountManagerUserIds. apply new_Set_size. }
  split; [exact Hsize |]. rewrite Hsize.
  etrans; [apply remove_dups_length_le |].
  rewrite length_map. apply sublist_length, array_filter_sublist.
Qed.

(** X22: the accounts listed beside a user are exactly the loaded
    accounts of the workspaces that user manages, in the loaded order;
    a user with any listed account carries the Account Manager badge,
    and a user who manages no workspace has none listed. *)
Theorem getAssignedAccounts_iff (members : list Membership.t)
    (accounts : list SocialAccount.t) (userId : string) (a : SocialAccount.t) :
  (a ∈ Team.getAssignedAccounts members accounts userId
   ↔ a ∈ accounts
     ∧ ∃ m, m ∈ members ∧ Membership.user_id m = userId
            ∧ Membership.role m = "account_manager"
            ∧ Membership.workspace_id m = SocialAccount.workspace_id a)
  ∧ Team.getAssignedAccounts members accounts userId `sublist_of` accounts
  ∧ (Team.getAssignedAccounts members accounts userId ≠ []
     → userId ∈ Team.accountManagerUserIds members).
Proof.
  assert (Hiff : ∀ b, b ∈ Team.getAssignedAccounts members accounts userId
                 ↔ b ∈ accounts
                   ∧ ∃ m, m ∈ members ∧ Membership.user_id m = userId
                          ∧ Membership.role m = "account_manager"
                          ∧ Membership.workspace_id m = SocialAccount.workspace_id b).
  { intros b. unfold Team.getAssignedAccounts.
    by rewrite elem_of_array_filter, managed_workspace_iff. }
  split; [apply Hiff |]. split; [apply array_filter_sublist |].
  intros Hne. destruct (Team.getAssignedAccounts members accounts userId)
    as [| b l] eqn:Hl; [done |].
  assert (Hb : b ∈ b :: l) by by left.
  apply Hiff in Hb as (_ & m & Hin & Hu & Hr & _).
  apply accountManager_iff. eauto.
Qed.

Lemma getAssignedAccounts_iff_witness :
  Team.getAssignedAccounts team_members [account_a1] "u2" ≠ []
  ∧ "u2" ∈ Team.accountManagerUserIds team_members.
Proof.
  assert (Hne : Team.getAssignedAccounts team_members [account_a1] "u2" ≠ [])
    by discriminate.
  split; [exact Hne |].
  exact (proj2 (proj2 (getAssignedAccounts_iff team_members [account_a1]
                         "u2" account_a1)) Hne).
Defined.

(** ** The approval component, further *)



Lemma app_singleton_neq {A} (l : list A) (x : A) : l ++ [x] ≠ l.
Proof.
  intros Heq. apply (f_equal List.length) in Heq.
  rewrite length_app in Heq. simpl in Heq. lia.
Qed.

(** X24: whatever the store answers and whichever calls fail, a run of
    [handleApprove] appends no comment, appends to the audit log either
    nothing or its one [approved] entry, and completes exactly when that
    entry was appended. *)
Theorem handleApprove_writes (v : PostApproval.view) (srv : server)
    (faults : remote_call → option failure) (d : db) :
  let out := run srv faults d (PostApproval.handleApprove v) in
  comments out.1 = comments d
  ∧ (audit_logs out.1 = audit_logs d
     ∨ audit_logs out.1 = audit_logs d ++ [approved_entry v])
  ∧ (out.2 = Ok ↔ audit_logs out.1 = audit_logs d ++ [approved_entry v]).
Proof.
  intros out.
  destruct (handleApprove_outcomes v srv faults d)
    as [[e He] | (d1 & Hserve & [[e He] | He])]; fold out in He; rewrite He;
    simpl.
  - split; [done |]. split; [by left |].
    split; [discriminate | intros Heq; symmetry in Heq].
    by apply app_singleton_neq in Heq.
  - apply serve_rows in Hserve as [Ha Hc]. simpl in Ha, Hc.
    rewrite app_nil_r in Ha, Hc. rewrite Ha, Hc.
    split; [done |]. split; [by left |].
    split; [discriminate | intros Heq; symmetry in Heq].
    by apply app_singleton_neq in Heq.
  - apply serve_rows in Hserve as [Ha Hc]. simpl in Ha, Hc.
    rewrite app_nil_r in Ha, Hc. rewrite Ha, Hc.
    split; [done |]. split; [by right |]. done.
Qed.

(** X25: when the status mutation of [handleApprove] is not answered
    (the call fails, or the store refuses it), the handler throws and
    the store is exactly as before: no audit entry records an approval
    that did not happen. *)
Theorem handleApprove_refused_writes_nothing (v : PostApproval.view)
    (srv : server) (faults : remote_call → option failure) (d : db) :
  is_Some (faults (approve_call v))
  ∨ (∃ e, Store.serve srv d (approve_call v) = inl e) →
  ∃ e, run srv faults d (PostApproval.handleApprove v) = (d, Threw e).
Proof.
  intros Hfail. rewrite handleApprove_calls.
  destruct (faults (approve_call v)) as [e |] eqn:Hf.
  - exists e. by apply run_fault.
  - destruct Hfail as [[e He] | [e He]]; [discriminate |].
    exists e. by apply run_refused.
Qed.

Lemma handleApprove_refused_writes_nothing_witness :
  is_Some (mutation_fails (approve_call (view_p1 "")))
  ∧ ∃ e, run server_approver mutation_fails store_p1
           (PostApproval.handleApprove (view_p1 "")) = (store_p1, Threw e).
Proof.
  assert (Hf : is_Some (mutation_fails (approve_call (view_p1 ""))))
    by by eexists.
  split; [exact Hf |].
  exact (handleApprove_refused_writes_nothing (view_p1 "") server_approver
           mutation_fails store_p1 (or_introl Hf)).
Defined.

(** X26: in every run of [handleRequestChanges] the audit entry comes
    last: the handler completes exactly when its [changes_requested]
    entry was appended, and when that entry is in the log and a reason
    was given, the comment is in the store too. *)
Theorem request_changes_audit_last (v : PostApproval.view) (srv : server)
    (faults : remote_call → option failure) (d : db) :
  let out := run srv faults d (PostApproval.handleRequestChanges v) in
  (audit_logs out.1 = audit_logs d
   ∨ audit_logs out.1 = audit_logs d ++ audit_row_of (audit_call v))
  ∧ (out.2 = Ok ↔ audit_logs out.1 = audit_logs d ++ audit_row_of (audit_call v))
  ∧ (out.2 = Ok → PostApproval.rejectReason v ≠ "" →
     comments out.1 = comments d ++ comment_row_of (comment_call v)).
Proof.
  intros out.
  assert (Hneq : ∀ l : list AuditLog.t, l = l ++ audit_row_of (audit_call v) → False).
  { intros l Heq. symmetry in Heq. by apply app_singleton_neq in Heq. }
  assert (Htail : ∀ d1, audit_logs d1 = audit_logs d →
            let o := run srv faults d1 (Await (audit_call v) Done) in
            (audit_logs o.1 = audit_logs d
             ∨ audit_logs o.1 = audit_logs d ++ audit_row_of (audit_call v))
            ∧ (o.2 = Ok ↔ audit_logs o.1
                          = audit_logs d ++ audit_row_of (audit_call v))
            ∧ comments o.1 = comments d1).
  { intros d1 Hd1 o. subst o. simpl.
    destruct (faults (audit_call v)); simpl; rewrite Hd1.
    - split; [by left |]. split; [| done].
      split; [discriminate | intros Heq; by apply Hneq in Heq].
    - split; [by right |]. done. }
  destruct (decide (PostApproval.rejectReason v = "")) as [Hr | Hr].
  - subst out. rewrite handleRequestChanges_without_reason by done.
    destruct (faults (mutation_call v)) as [e |] eqn:Hf.
    { rewrite (run_fault _ _ _ _ _ e) by done. simpl.
      split; [by left |]. split; [| done].
      split; [discriminate | intros Heq; by apply Hneq in Heq]. }
    destruct (Store.serve srv d (mutation_call v)) as [e | d1] eqn:Hs.
    { rewrite (run_refused _ _ _ _ _ e) by done. simpl.
      split; [by left |]. split; [| done].
      split; [discriminate | intros Heq; by apply Hneq in Heq]. }
    rewrite (run_answered _ _ _ _ _ d1) by done.
    apply serve_rows in Hs as [Ha _]. simpl in Ha. rewrite app_nil_r in Ha.
    destruct (Htail d1 Ha) as (H1 & H2 & _). split; [done |]. split; [done |].
    intros _ Hne. done.
  - subst out. rewrite handleRequestChanges_with_reason by done.
    destruct (faults (mutation_call v)) as [e |] eqn:Hf.
    { rewrite (run_fault _ _ _ _ _ e) by done. simpl.
      split; [by left |]. split; [| done].
      split; [discriminate | intros Heq; by apply Hneq in Heq]. }
    destruct (Store.serve srv d (mutation_call v)) as [e | d1] eqn:Hs.
    { rewrite (run_refused _ _ _ _ _ e) by done. simpl.
      split; [by left |]. split; [| done].
      split; [discriminate | intros Heq; by apply Hneq in Heq]. }
    rewrite (run_answered _ _ _ _ _ d1) by done.
    apply serve_rows in Hs as [Ha Hc]. simpl in Ha, Hc.
    rewrite app_nil_r in Ha, Hc.
    destruct (faults (comment_call v)) as [e |] eqn:Hfc.
    { rewrite (run_fault _ _ _ _ _ e) by done. simpl. rewrite Ha.
      split; [by left |]. split; [| done].
      split; [discriminate | intros Heq; by apply Hneq in Heq]. }
    rewrite (run_answered _ _ _ _ _ (Store.insert_comment d1 _)) by done.
    destruct (Htail (Store.insert_comment d1
                       {| Comment.post_id := Post.id (PostApproval.post v);
                          Comment.workspace_id :=
                            Post.workspace_id (PostApproval.post v);
                          Comment.content :=
                            ("Changes requested: "
                             ++ PostApproval.rejectReason v)%string;
                          Comment.is_internal := false |}) Ha)
      as (H1 & H2 & H3).
    split; [done |]. split; [done |].
    intros _ _. rewrite H3. simpl. by rewrite Hc.
Qed.

Lemma request_changes_audit_last_witness :
  let out := run server_approver no_faults store_p1
               (PostApproval.handleRequestChanges (view_p1 "fix the caption")) in
  out.2 = Ok
  ∧ PostApproval.rejectReason (view_p1 "fix the caption") ≠ ""
  ∧ comments out.1
    = comments store_p1 ++ comment_row_of (comment_call (view_p1 "fix the caption")).
Proof.
  intros out.
  assert (Hr : PostApproval.rejectReason (view_p1 "fix the caption") ≠ "")
    by discriminate.
  split; [reflexivity |]. split; [exact Hr |].
  exact (proj2 (proj2 (request_changes_audit_last (view_p1 "fix the caption")
                         server_approver no_faults store_p1)) eq_refl Hr).
Defined.

(** ** Interleaved sessions, further *)




(** ** The brand guidelines page *)

Section BrandGuidelinesSave.
Import BrandGuidelines.

Lemma truthy_Some (v : option string) :
  truthy v = true ↔ ∃ s, v = Some s ∧ s ≠ "".
Proof.
  destruct v as [s |]; simpl.
  - rewrite truthy_str_true. split; [eauto |]. by intros (s' & [= <-] & ?).
  - split; [discriminate |]. by intros (s' & ? & _).
Qed.

Lemma truthy_val_true (v : option jsval) :
  truthy_val v = true ↔ ∃ s, v = Some (JStr s) ∧ s ≠ "".
Proof.
  destruct v as [[| | s] |]; simpl;
    try (split; [discriminate | by intros (s' & ? & _)]).
  rewrite truthy_str_true. split; [eauto |]. by intros (s' & [= <-] & ?).
Qed.

Lemma maybeSingle_Some (rows : list BrandGuideline.t) (r : BrandGuideline.t) :
  error (maybeSingle rows) = None → data (maybeSingle rows) = Some r →
  rows = [r].
Proof. destruct rows as [| r1 [| r2 rows]]; simpl; congruence. Qed.

Lemma maybeSingle_None (rows : list BrandGuideline.t) :
  error (maybeSingle rows) = None → data (maybeSingle rows) = None →
  rows = [].
Proof. destruct rows as [| r1 [| r2 rows]]; simpl; congruence. Qed.

Lemma queryFn_None w table :
  queryFn w table = inr None
  ↔ Calendar.array_filter (λ r, BrandGuideline.workspace_id r === w) table = [].
Proof.
  unfold queryFn.
  destruct (Calendar.array_filter _ table) as [| r1 [| r2 rows]]; simpl;
    split; congruence.
Qed.

Lemma queryFn_Some w table g :
  queryFn w table = inr (Some g)
  ↔ ∃ r, Calendar.array_filter
           (λ r, BrandGuideline.workspace_id r === w) table = [r]
         ∧ g = form_shape r.
Proof.
  unfold queryFn.
  destruct (Calendar.array_filter _ table) as [| r1 [| r2 rows]]; simpl.
  - split; [discriminate | by intros (r & ? & _)].
  - split; [intros [= <-]; eauto | by intros (r & [= <-] & ->)].
  - split; [discriminate | by intros (r & ? & _)].
Qed.

Lemma array_filter_app {A} (f : A → bool) (l k : list A) :
  Calendar.array_filter f (l ++ k)
  = Calendar.array_filter f l ++ Calendar.array_filter f k.
Proof. unfold Calendar.array_filter. apply List.filter_app. Qed.

Lemma array_filter_map {A B} (f : B → bool) (g : A → B) (l : list A) :
  Calendar.array_filter f (map g l)
  = map g (Calendar.array_filter (λ x, f (g x)) l).
Proof.
  induction l as [| x l IH]; simpl; [reflexivity |].
  destruct (f (g x)); simpl; by rewrite IH.
Qed.

Lemma form_shape_fields (r : BrandGuideline.t) (k : string) (x : jsval) :
  BrandGuideline.data r !! k = Some x → form_shape r !! k = Some x.
Proof. intros Hk. unfold form_shape. by apply lookup_union_Some_l. Qed.

Lemma form_shape_id (r : BrandGuideline.t) :
  BrandGuideline.data r !! "id" = None →
  form_shape r !! "id" = Some (JStr (BrandGuideline.id r)).
Proof.
  intros Hk. unfold form_shape.
  rewrite lookup_union_r by done. apply lookup_singleton_eq.
Qed.

End BrandGuidelinesSave.

(** X28: a save that goes through was made for a named workspace by a
    signed-in user, and every row of the table afterwards either was
    there before or carries that workspace, that user and the saved
    form; the table keeps its length or grows by one row. Without a
    workspace in the URL or without a user nothing is written. *)
Theorem save_writes_own_workspace (workspaceId : option string)
    (user : option AuthUser.t) (guidelines : option (gmap string jsval))
    (new_id : string) (fault : option string) (formData : gmap string jsval)
    (table table' : list BrandGuideline.t) :
  BrandGuidelines.saveMutation workspaceId user guidelines new_id fault
    formData table = inr table' →
  ∃ w u, workspaceId = Some w ∧ w ≠ ""
         ∧ user = Some u ∧ AuthUser.id u ≠ ""
         ∧ fault = None
         ∧ Forall (λ r, r ∈ table
                        ∨ (BrandGuideline.workspace_id r = w
                           ∧ BrandGuideline.updated_by r = AuthUser.id u
                           ∧ BrandGuideline.data r = formData)) table'
         ∧ (List.length table' = List.length table
            ∨ List.length table' = S (List.length table)).
Proof.
  unfold BrandGuidelines.saveMutation.
  destruct (truthy workspaceId) eqn:Hw; simpl; [| discriminate].
  destruct (truthy (AuthUser.id <$> user)) eqn:Hu; simpl; [| discriminate].
  apply truthy_Some in Hw as (w & -> & Hw).
  apply truthy_Some in Hu as (uid & Hu & Huid).
  destruct user as [u |]; [| discriminate]. injection Hu as <-.
  intros Hsave. exists w, u. simpl in Hsave.
  destruct (BrandGuidelines.truthy_val _), fault as [e |];
    try discriminate; injection Hsave as <-; split_and!; auto.
  - unfold BrandGuidelines.update_eq_id. apply Forall_forall.
    intros r (r0 & -> & Hr0)%list_elem_of_fmap.
    destruct (BrandGuidelines.eq_id _ r0); [by right | by left].
  - left. unfold BrandGuidelines.update_eq_id. apply length_map.
  - apply Forall_app. split.
    + apply Forall_forall. by left.
    + apply Forall_singleton. by right.
  - right. rewrite length_app. simpl. lia.
Qed.

Lemma save_writes_own_workspace_witness :
  BrandGuidelines.saveMutation (Some "w1") user_u1 None "g9" None brand_form
    [brand_row_w2]
  = inr [brand_row_w2;
         {| BrandGuideline.id := "g9"; BrandGuideline.workspace_id := "w1";
            BrandGuideline.data := brand_form;
            BrandGuideline.updated_by := "u1" |}]
  ∧ ∃ w u, Some "w1" = Some w ∧ w ≠ "" ∧ user_u1 = Some u.
Proof.
  assert (Hsave : BrandGuidelines.saveMutation (Some "w1") user_u1 None "g9"
                    None brand_form [brand_row_w2]
                  = inr [brand_row_w2;
                         {| BrandGuideline.id := "g9";
                            BrandGuideline.workspace_id := "w1";
                            BrandGuideline.data := brand_form;
                            BrandGuideline.updated_by := "u1" |}])
    by reflexivity.
  split; [exact Hsave |].
  destruct (save_writes_own_workspace _ _ _ _ _ _ _ _ Hsave)
    as (w & u & Hw & Hne & Hu & _).
  eauto.
Defined.

(** X29: saving and loading round-trip on a workspace that has no
    guidelines yet. When the query answered [null], a save by a
    signed-in user appends one row, and the query then answers the
    saved form: every field of the form is read back as saved, and the
    answer carries the new row's id unless the form has an [id] of its
    own. Rows of other workspaces stay as they were. *)
Theorem save_then_load_new (w : string) (u : AuthUser.t) (new_id : string)
    (formData : gmap string jsval) (table : list BrandGuideline.t) :
  w ≠ "" →
  AuthUser.id u ≠ "" →
  BrandGuidelines.queryFn w table = inr None →
  ∃ table' loaded,
    BrandGuidelines.saveMutation (Some w) (Some u) None new_id None
      formData table = inr table'
    ∧ table `prefix_of` table'
    ∧ BrandGuidelines.queryFn w table' = inr (Some loaded)
    ∧ (∀ k x, formData !! k = Some x → loaded !! k = Some x)
    ∧ (formData !! "id" = None → loaded !! "id" = Some (JStr new_id)).
Proof.
  intros Hw Hu Hnone%queryFn_None.
  set (r := {| BrandGuideline.id := new_id; BrandGuideline.workspace_id := w;
               BrandGuideline.data := formData;
               BrandGuideline.updated_by := AuthUser.id u |}).
  exists (table ++ [r]), (BrandGuidelines.form_shape r).
  split_and!.
  - unfold BrandGuidelines.saveMutation. simpl.
    apply truthy_str_true in Hw, Hu. by rewrite Hw, Hu.
  - by apply prefix_app_r.
  - apply queryFn_Some. exists r. split; [| reflexivity].
    rewrite array_filter_app, Hnone. simpl.
    by rewrite (proj2 (str_eq_true w w) eq_refl).
  - intros k x. apply (form_shape_fields r).
  - apply (form_shape_id r).
Qed.

Lemma save_then_load_new_witness :
  "w1" ≠ "" ∧ "u1" ≠ ""
  ∧ BrandGuidelines.queryFn "w1" [brand_row_w2] = inr None
  ∧ ∃ table' loaded,
      BrandGuidelines.saveMutation (Some "w1") user_u1 None "g9" None
        brand_form [brand_row_w2] = inr table'
      ∧ BrandGuidelines.queryFn "w1" table' = inr (Some loaded)
      ∧ loaded !! "id" = Some (JStr "g9").
Proof.
  split; [discriminate |]. split; [discriminate |]. split; [reflexivity |].
  destruct (save_then_load_new "w1" (AuthUser.mk "u1" (Some "approver@client.example"))
              "g9" brand_form [brand_row_w2])
    as (table' & loaded & Hs & _ & Hq & _ & Hid);
    [discriminate | discriminate | reflexivity |].
  exists table', loaded. split; [exact Hs |]. split; [exact Hq |].
  apply Hid. reflexivity.
Defined.

Lemma NoDup_ids_inj (table : list BrandGuideline.t) (r r' : BrandGuideline.t) :
  NoDup (map BrandGuideline.id table) →
  r ∈ table → r' ∈ table → BrandGuideline.id r = BrandGuideline.id r' → r = r'.
Proof.
  induction table as [| x table IH]; simpl; intros Hnd Hr Hr' Hid.
  - by apply elem_of_nil in Hr.
  - apply NoDup_cons in Hnd as [Hx Hnd].
    apply elem_of_cons in Hr as [-> | Hr]; apply elem_of_cons in Hr' as [-> | Hr'].
    + reflexivity.
    + destruct Hx. rewrite Hid. apply list_elem_of_In, in_map.
      by apply list_elem_of_In.
    + destruct Hx. rewrite <- Hid. apply list_elem_of_In, in_map.
      by apply list_elem_of_In.
    + by apply IH.
Qed.

(** X30: saving and loading round-trip on a workspace that already has
    its guidelines. When row ids are unique, the workspace has exactly
    one row, and that row's form holds no [id] other than the row's own,
    the query answers that row's form, and a save made with this answer
    updates the row in place: the table keeps its length, every other
    row is unchanged, and the query then answers the saved form under
    the same id. *)
Theorem save_then_load_existing (w : string) (u : AuthUser.t) (new_id : string)
    (formData : gmap string jsval) (table : list BrandGuideline.t)
    (r : BrandGuideline.t) :
  w ≠ "" →
  AuthUser.id u ≠ "" →
  NoDup (map BrandGuideline.id table) →
  Calendar.array_filter (λ r, BrandGuideline.workspace_id r === w) table = [r] →
  BrandGuideline.id r ≠ "" →
  BrandGuideline.data r !! "id" = None
  ∨ BrandGuideline.data r !! "id" = Some (JStr (BrandGuideline.id r)) →
  BrandGuidelines.queryFn w table = inr (Some (BrandGuidelines.form_shape r))
  ∧ ∃ table' loaded,
      BrandGuidelines.saveMutation (Some w) (Some u)
        (Some (BrandGuidelines.form_shape r)) new_id None formData table
      = inr table'
      ∧ List.length table' = List.length table
      ∧ (∀ r', r' ∈ table → r' ≠ r → r' ∈ table')
      ∧ BrandGuidelines.queryFn w table' = inr (Some loaded)
      ∧ (∀ k x, formData !! k = Some x → loaded !! k = Some x)
      ∧ (formData !! "id" = None
         → loaded !! "id" = Some (JStr (BrandGuideline.id r))).
Proof.
  intros Hw Hu Hnd Hone Hrid Hdata.
  assert (Hgid : BrandGuidelines.form_shape r !! "id"
                 = Some (JStr (BrandGuideline.id r))).
  { destruct Hdata as [Hd | Hd];
      [by apply form_shape_id | by apply form_shape_fields]. }
  split; [apply queryFn_Some; eauto |].
  set (r1 := {| BrandGuideline.id := BrandGuideline.id r;
                BrandGuideline.workspace_id := w;
                BrandGuideline.data := formData;
                BrandGuideline.updated_by := AuthUser.id u |}).
  set (upd := λ x, if BrandGuidelines.eq_id
                        (Some (JStr (BrandGuideline.id r))) x
                   then {| BrandGuideline.id := BrandGuideline.id x;
                           BrandGuideline.workspace_id := w;
                           BrandGuideline.data := formData;
                           BrandGuideline.updated_by := AuthUser.id u |}
                   else x).
  assert (Hr : r ∈ table ∧ BrandGuideline.workspace_id r = w).
  { assert (Hin : r ∈ [r]) by by left.
    rewrite <- Hone in Hin. apply elem_of_array_filter in Hin as [? ?].
    split; [done | by apply str_eq_true]. }
  destruct Hr as [Hrin Hrw].
  assert (Hupd_r : upd r = r1).
  { unfold upd. simpl. by rewrite (proj2 (str_eq_true _ _) eq_refl). }
  assert (Hupd_other : ∀ x, x ∈ table → x ≠ r → upd x = x).
  { intros x Hx Hne. unfold upd. simpl.
    destruct (BrandGuideline.id x === BrandGuideline.id r) eqn:Hid; [| done].
    apply str_eq_true in Hid. destruct Hne.
    by apply (NoDup_ids_inj table). }
  exists (map upd table), (BrandGuidelines.form_shape r1).
  split_and!.
  - unfold BrandGuidelines.saveMutation. simpl.
    apply truthy_str_true in Hw, Hu. rewrite Hw, Hu. simpl.
    rewrite Hgid. simpl. apply truthy_str_true in Hrid. by rewrite Hrid.
  - apply length_map.
  - intros r' Hin Hne. rewrite <- (Hupd_other r' Hin Hne).
    apply list_elem_of_In, in_map. by apply list_elem_of_In.
  - apply queryFn_Some. exists r1. split; [| reflexivity].
    rewrite array_filter_map.
    rewrite (array_filter_ext _ (λ x, BrandGuideline.workspace_id x === w)).
    + by rewrite Hone; simpl; rewrite Hupd_r.
    + intros x Hx.
      destruct (decide (BrandGuideline.id x = BrandGuideline.id r)) as [Hid | Hid].
      * assert (x = r) as -> by by apply (NoDup_ids_inj table).
        rewrite Hupd_r. simpl. by rewrite Hrw.
      * rewrite Hupd_other; [done | done | congruence].
  - intros k x. apply (form_shape_fields r1).
  - apply (form_shape_id r1).
Qed.

Lemma save_then_load_existing_witness :
  let table := [brand_row_w2; brand_row_w1] in
  BrandGuidelines.queryFn "w1" table
  = inr (Some (BrandGuidelines.form_shape brand_row_w1))
  ∧ ∃ table' loaded,
      BrandGuidelines.saveMutation (Some "w1") user_u1
        (Some (BrandGuidelines.form_shape brand_row_w1)) "g9" None brand_form
        table = inr table'
      ∧ List.length table' = List.length table
      ∧ BrandGuidelines.queryFn "w1" table' = inr (Some loaded)
      ∧ loaded !! "id" = Some (JStr "g1").
Proof.
  intros table.
  destruct (save_then_load_existing "w1"
              (AuthUser.mk "u1" (Some "approver@client.example")) "g9"
              brand_form table brand_row_w1)
    as (Hq & table' & loaded & Hs & Hlen & _ & Hq' & _ & Hid).
  - discriminate.
  - discriminate.
  - simpl. apply NoDup_cons. split; [| apply NoDup_singleton].
    intros Hin%list_elem_of_singleton. discriminate Hin.
  - reflexivity.
  - discriminate.
  - left. reflexivity.
  - split; [exact Hq |]. exists table', loaded.
    split_and!; [exact Hs | exact Hlen | exact Hq' |].
    apply Hid. reflexivity.
Defined.
